(** * ada-mcp-servers: the ordering driver and the Calendar/Gmail wrappers

    A shallow embedding of
    - [services/ordering-scraper] (the browser automation driver:
      [initBrowser], [orderFoodItem], [browseMenu], the cart stubs,
      [findAndClickItem], [isItemMatch], [handleOrderModal],
      [fillAddressForm], [getMenuItems], [takeScreenshot]),
    - [ordering-mcp-server.ts] (the tool handlers around the driver),
    - [google-mcp-server] ([suggestColorId], the Calendar/Gmail tool
      handlers, and the authentication: [loadSavedCredentialsIfExist],
      [saveCredentials], [getAuth]),
    - [chat.ts] (the routing of tool calls and the chat loop).

    JavaScript strings are embedded as [string]; asynchronous code as
    a state-and-exception monad over an explicit model of the outside
    world (browser, file system, remote services). *)

From Stdlib Require Import Ascii String List ZArith Lia Bool.
From stdpp Require Import gmap strings pretty.
Import ListNotations.

#[local] Open Scope string_scope.
#[local] Arguments String.append !_ _ / : simpl nomatch.

(** ** JavaScript strings *)

Module Js.

(** [String.prototype.toLowerCase], on the ASCII range: the letters
    [A]..[Z] are mapped to [a]..[z]; every other code unit is kept
    (letters outside ASCII are not case-folded by this model). *)
Definition lower_char (c : ascii) : ascii :=
  let n := nat_of_ascii c in
  if Nat.leb 65 n && Nat.leb n 90 then ascii_of_nat (n + 32) else c.

Fixpoint toLowerCase (s : string) : string :=
  match s with
  | EmptyString => EmptyString
  | String c s' => String (lower_char c) (toLowerCase s')
  end.

(** [strip_prefix w s] is [Some rest] when [s] starts with [w]. *)
Fixpoint strip_prefix (w s : string) : option string :=
  match w with
  | EmptyString => Some s
  | String a w' =>
      match s with
      | EmptyString => None
      | String b s' => if Ascii.eqb a b then strip_prefix w' s' else None
      end
  end.

Definition startsWith (s w : string) : bool :=
  match strip_prefix w s with Some _ => true | None => false end.

(** [String.prototype.includes]: [t] occurs somewhere in [s]. *)
Fixpoint includes (s t : string) : bool :=
  startsWith s t ||
  match s with
  | EmptyString => false
  | String _ s' => includes s' t
  end.

(** Truthiness of a possibly absent string ([null], [undefined] and the
    empty string are falsy), and the [a || b] idiom on such values. *)
Definition truthy (o : option string) : bool :=
  match o with
  | Some (String _ _) => true
  | _ => false
  end.

Definition or_else (a b : option string) : option string :=
  if truthy a then a else b.

Definition or_default (a : option string) (d : string) : string :=
  match a with
  | Some (String c s) => String c s
  | _ => d
  end.

(** The regular-expression class [\w] (no [u] flag): [[A-Za-z0-9_]]. *)
Definition is_word_char (c : ascii) : bool :=
  let n := nat_of_ascii c in
  (Nat.leb 48 n && Nat.leb n 57) || (Nat.leb 65 n && Nat.leb n 90)
  || (Nat.leb 97 n && Nat.leb n 122) || Nat.eqb n 95.

Definition is_word (o : option ascii) : bool :=
  match o with Some c => is_word_char c | None => false end.

(** The assertion [\b] between the code unit before the position
    ([None] at the start of the text) and the one after it ([None] at
    the end). *)
Definition word_boundary (prev next : option ascii) : bool :=
  xorb (is_word prev) (is_word next).

Definition first_char (s : string) : option ascii :=
  match s with EmptyString => None | String c _ => Some c end.

(** The last code unit of [s], or [prev] when [s] is empty. *)
Fixpoint last_char (prev : option ascii) (s : string) : option ascii :=
  match s with
  | EmptyString => prev
  | String c s' => last_char (Some c) s'
  end.

(** One alternative [w] of [\b(w1|...|wn)\b] tried at the current
    position, [prev] being the code unit before it. *)
Definition match_alt_at (prev : option ascii) (s w : string) : bool :=
  word_boundary prev (first_char s) &&
  match strip_prefix w s with
  | Some rest => word_boundary (last_char prev w) (first_char rest)
  | None => false
  end.

(** [text.match(/\b(w1|...|wn)\b/)] as a truth value: the pattern is
    tried at every position, each alternative in turn. *)
Fixpoint search_from (prev : option ascii) (s : string) (ws : list string) : bool :=
  existsb (match_alt_at prev s) ws ||
  match s with
  | EmptyString => false
  | String c s' => search_from (Some c) s' ws
  end.

Definition matches (text : string) (ws : list string) : bool :=
  search_from None text ws.

(** [String.prototype.substring(0, n)]. *)
Fixpoint take (n : nat) (s : string) : string :=
  match n, s with
  | S n', String c s' => String c (take n' s')
  | _, _ => EmptyString
  end.

(** The string made of one double-quote character. *)
Definition dquote : string := String (ascii_of_nat 34) EmptyString.

(** *** Thrown values

    Whatever a [throw] or a rejected promise carries: an [Error] object
    (with its [name], its [message] and, for the errors of an HTTP
    client, the status of the [response] when there was one), or a
    value that is not an [Error], given by its [String(...)] image. *)
Record JsError := {
  err_name : string;
  err_message : string;
  err_response : option Z;
}.

Inductive Thrown :=
| ThrownError (e : JsError)
| ThrownValue (repr : string).

Definition mkError (msg : string) : JsError :=
  {| err_name := "Error"; err_message := msg; err_response := None |}.

(** Reading a property of [null] or [undefined]. *)
Definition TypeError_read (of_what prop : string) : Thrown :=
  ThrownError
    {| err_name := "TypeError";
       err_message :=
         "Cannot read properties of " +:+ of_what +:+ " (reading '" +:+ prop +:+ "')";
       err_response := None |}.

(** [Error.prototype.toString]. *)
Definition error_toString (e : JsError) : string :=
  match err_name e, err_message e with
  | EmptyString, m => m
  | n, EmptyString => n
  | n, m => n +:+ ": " +:+ m
  end.

(** [error instanceof Error ? error.message : String(error)]. *)
Definition message_or_string (t : Thrown) : string :=
  match t with
  | ThrownError e => err_message e
  | ThrownValue r => r
  end.

(** [`${error.message || error}`]. *)
Definition message_or_self (t : Thrown) : string :=
  match t with
  | ThrownError e =>
      match err_message e with
      | EmptyString => error_toString e
      | m => m
      end
  | ThrownValue r => r
  end.

(** *** JSON values, as handed to [JSON.stringify] *)
#[local] Set Warnings "-register-all".
Inductive Json :=
| JNull
| JBool (b : bool)
| JNum (n : Z)
| JStr (s : string)
| JArr (items : list Json)
| JObj (fields : list (string * Json)).

(** The value of the first field named [key] of an object. *)
Fixpoint assoc (key : string) (fields : list (string * Json)) : option Json :=
  match fields with
  | [] => None
  | (k, v) :: rest => if String.eqb k key then Some v else assoc key rest
  end.

Definition field (key : string) (j : Json) : option Json :=
  match j with
  | JObj fields => assoc key fields
  | _ => None
  end.

(** A field left out when its value is [undefined]. *)
Definition opt_field (key : string) (v : option string) : list (string * Json) :=
  match v with
  | Some s => [(key, JStr s)]
  | None => []
  end.

End Js.

(** ** The ordering driver *)

Definition isItemMatch (itemText searchTerm : string) : bool :=
  let normalizedItem := Js.toLowerCase itemText in
  let normalizedSearch := Js.toLowerCase searchTerm in
  Js.includes normalizedItem normalizedSearch ||
  Js.includes normalizedSearch normalizedItem.

(** ** The colour heuristic of the calendar wrapper *)

Definition workWords : list string :=
  ["work"; "meeting"; "call"; "conference"; "deadline"; "project"; "client";
   "business"; "office"; "interview"; "presentation"; "review"; "standup";
   "sprint"; "team"; "manager"; "boss"; "hr"; "hrs"].
Definition workMeetingWords : list string :=
  ["meeting"; "call"; "conference"; "standup"; "presentation"].
Definition workDeadlineWords : list string :=
  ["deadline"; "urgent"; "important"; "critical"].

Definition socialWords : list string :=
  ["party"; "social"; "fun"; "celebration"; "birthday"; "anniversary"; "date";
   "romantic"; "dinner"; "movie"; "show"; "concert"; "game"; "gaming";
   "friends"; "hangout"; "drinks"; "club"; "bar"].
Definition socialDateWords : list string :=
  ["date"; "romantic"; "anniversary"; "valentine"].
Definition socialShowWords : list string :=
  ["movie"; "show"; "concert"; "entertainment"; "theater"].

Definition healthWords : list string :=
  ["gym"; "workout"; "exercise"; "fitness"; "run"; "running"; "yoga";
   "pilates"; "swim"; "cycling"; "doctor"; "medical"; "appointment";
   "therapy"; "dentist"; "checkup"; "health"; "wellness"; "massage"; "spa"].
Definition healthMedicalWords : list string :=
  ["doctor"; "medical"; "appointment"; "therapy"; "dentist"; "checkup";
   "health"].

Definition learningWords : list string :=
  ["study"; "class"; "course"; "lesson"; "workshop"; "training"; "seminar";
   "lecture"; "school"; "university"; "college"; "exam"; "test"; "homework";
   "assignment"; "learning"; "education"; "book"; "reading"].
Definition learningWorkshopWords : list string :=
  ["workshop"; "conference"; "seminar"; "training"].

Definition travelWords : list string :=
  ["travel"; "trip"; "vacation"; "flight"; "airport"; "hotel"; "booking";
   "reservation"; "holiday"; "getaway"].

(** The body of [suggestColorId] once [text] has been computed. *)
Definition colorOfText (text : string) : string :=
  if Js.matches text workWords then
    if Js.matches text workMeetingWords then "7"
    else if Js.matches text workDeadlineWords then "8"
    else "9"
  else if Js.matches text socialWords then
    if Js.matches text socialDateWords then "11"
    else if Js.matches text socialShowWords then "3"
    else "4"
  else if Js.matches text healthWords then
    if Js.matches text healthMedicalWords then "2"
    else "10"
  else if Js.matches text learningWords then
    if Js.matches text learningWorkshopWords then "6"
    else "5"
  else if Js.matches text travelWords then "7"
  else "1".

(** The text inspected by [suggestColorId]:
    [`${summary} ${description || ''}`.toLowerCase()]. *)
Definition colorText (summary : string) (description : option string) : string :=
  Js.toLowerCase (summary +:+ " " +:+ Js.or_default description EmptyString).

Definition suggestColorId (summary : string) (description : option string) : string :=
  colorOfText (colorText summary description).


(** ** The ordering driver: the outside world and the monad of effects *)

(** Handles of the objects the browser library hands out. *)
Definition Browser := nat.
Definition Context := nat.
Definition Page := nat.

(** A locator of the page: one of the elements listed by
    [page.locator(sel).all()], or [page.locator(sel).first()]. *)
Inductive Locator :=
| Handle (id : nat)
| First (selector : string).

(** The calls that leave the program and may fail. *)
Inductive Call :=
| CMkdir (dir : string)
| CLaunch
| CNewContext (b : Browser)
| CNewPage (c : Context)
| CGoto (p : Page) (url : string)
| CWaitForTimeout (p : Page) (ms : nat)
| CWaitForSelector (p : Page) (selector : string)
| CLocatorAll (p : Page) (selector : string)
| CGetAttribute (el : Locator) (attr : string)
| CTextContent (el : Locator)
| CClick (el : Locator)
| CIsVisible (el : Locator)
| CFill (p : Page) (selector value : string)
| CScreenshot (p : Page) (path : string).

(** What each call resolves to. *)
Definition Ret (c : Call) : Type :=
  match c with
  | CLaunch => Browser
  | CNewContext _ => Context
  | CNewPage _ => Page
  | CLocatorAll _ _ => list Locator
  | CGetAttribute _ _ => option string
  | CTextContent _ => option string
  | CIsVisible _ => bool
  | _ => unit
  end.

(** The world outside the process. Its answers may change from one
    call to the next: they depend on the number of calls made so far.
    [Date.now()] does not fail. *)
Record World := {
  respond : nat -> forall c : Call, Js.Thrown + Ret c;
  now : nat -> N;
}.

(** The module-level variables [browser] and [page], with the number
    of external calls made so far and their log, most recent first
    (the flag tells whether the call resolved). *)
Record DriverState := {
  browser : option Browser;
  page : option Page;
  tick : nat;
  trace : list (Call * bool);
}.

Definition initialState : DriverState :=
  {| browser := None; page := None; tick := 0; trace := [] |}.

Definition resolved {A} (r : Js.Thrown + A) : bool :=
  match r with inr _ => true | inl _ => false end.

(** A computation either resolves to a value or throws. *)
Definition M (A : Type) : Type := DriverState -> (Js.Thrown + A) * DriverState.

Definition ret {A} (a : A) : M A := fun s => (inr a, s).

Definition throw {A} (t : Js.Thrown) : M A := fun s => (inl t, s).

Definition bind {A B} (m : M A) (k : A -> M B) : M B :=
  fun s =>
    match m s with
    | (inr a, s') => k a s'
    | (inl t, s') => (inl t, s')
    end.

(** [try { m } catch (e) { h e }]. *)
Definition try_catch {A} (m : M A) (h : Js.Thrown -> M A) : M A :=
  fun s =>
    match m s with
    | (inr a, s') => (inr a, s')
    | (inl t, s') => h t s'
    end.

Declare Scope driver_scope.
Delimit Scope driver_scope with driver.
Notation "x <- m ;; k" := (bind m (fun x => k))
  (at level 100, m at next level, right associativity) : driver_scope.
Notation "m ;; k" := (bind m (fun _ => k))
  (at level 100, right associativity) : driver_scope.
#[local] Open Scope driver_scope.

Definition set_browser (b : Browser) : M unit :=
  fun s => (inr tt, {| browser := Some b; page := page s;
                       tick := tick s; trace := trace s |}).

Definition set_page (p : Page) : M unit :=
  fun s => (inr tt, {| browser := browser s; page := Some p;
                       tick := tick s; trace := trace s |}).

Definition get_browser : M (option Browser) := fun s => (inr (browser s), s).
Definition get_page : M (option Page) := fun s => (inr (page s), s).

(** The receiver of a method call on the variable [page], which is
    [null] until a page has been opened. *)
Definition on_page (pg : option Page) (method : string) : M Page :=
  match pg with
  | Some p => ret p
  | None => throw (Js.TypeError_read "null" method)
  end.

(** ** The ordering driver: results *)

Record OrderResult := {
  success : bool;
  itemName : string;
  quantity : Z;
  found : bool;
  screenshot : string;
  error : option string;
  clickedElement : option string;
}.

Record MenuItem := {
  name : string;
  price : string;
  description : option string;
  category : option string;
  available : bool;
}.

Record CartContents := {
  items : list string;
  total : string;
  itemCount : Z;
}.

(** The anonymous result types of [findAndClickItem], [clearCart] and
    [proceedToCheckout]. *)
Record FindResult := {
  find_success : bool;
  find_found : bool;
  find_error : option string;
  find_clickedElement : option string;
}.

Record ClearResult := {
  clear_success : bool;
  clear_message : string;
}.

Record CheckoutResult := {
  checkout_success : bool;
  checkout_message : string;
  checkout_screenshot : string;
}.

(** [...(v && { key: v })]: the field is spread in only for a truthy [v]. *)
Definition spread_if_truthy (v : option string) : option string :=
  if Js.truthy v then v else None.

(** The objects [JSON.stringify] receives in the tool handlers. *)
Definition OrderResult_json (r : OrderResult) : Js.Json :=
  Js.JObj
    ([("success", Js.JBool (success r));
      ("itemName", Js.JStr (itemName r));
      ("quantity", Js.JNum (quantity r));
      ("found", Js.JBool (found r));
      ("screenshot", Js.JStr (screenshot r))]
     ++ Js.opt_field "error" (error r)
     ++ Js.opt_field "clickedElement" (clickedElement r)).

Definition MenuItem_json (m : MenuItem) : Js.Json :=
  Js.JObj
    ([("name", Js.JStr (name m)); ("price", Js.JStr (price m))]
     ++ Js.opt_field "description" (description m)
     ++ Js.opt_field "category" (category m)
     ++ [("available", Js.JBool (available m))]).

Definition CartContents_json (c : CartContents) : Js.Json :=
  Js.JObj
    [("items", Js.JArr (map Js.JStr (items c)));
     ("total", Js.JStr (total c));
     ("itemCount", Js.JNum (itemCount c))].

Definition ClearResult_json (c : ClearResult) : Js.Json :=
  Js.JObj
    [("success", Js.JBool (clear_success c));
     ("message", Js.JStr (clear_message c))].

Definition CheckoutResult_json (c : CheckoutResult) : Js.Json :=
  Js.JObj
    [("success", Js.JBool (checkout_success c));
     ("message", Js.JStr (checkout_message c));
     ("screenshot", Js.JStr (checkout_screenshot c))].

(** ** The ordering driver: operations *)

Definition quoted (s : string) : string := Js.dquote +:+ s +:+ Js.dquote.

Definition itemSelectors : list string :=
  ["new-menufy-item-card"; ".item-wrapper"; ".item-link"; "[item-name]";
   "div[class*='item']"].

Definition menuSelectors : list string :=
  ["new-menufy-item-card"; ".item-wrapper"; ".item-link"; "[item-name]"].

Definition deliveryRadio : string := "input[value=" +:+ quoted "Delivery" +:+ "]".

Definition deliverySelectors : list string :=
  ["label:has-text(" +:+ quoted "Delivery" +:+ ")";
   "label[onclick*=" +:+ quoted "Delivery" +:+ "]";
   deliveryRadio;
   ".btn:has-text(" +:+ quoted "Delivery" +:+ ")";
   "label.btn:has-text(" +:+ quoted "Delivery" +:+ ")"].

Definition updateSelectors : list string :=
  ["#update-settings-btn";
   "button[id=" +:+ quoted "update-settings-btn" +:+ "]";
   ".modal-footer button";
   "button:has-text(" +:+ quoted "Update" +:+ ")";
   ".btn-primary:has-text(" +:+ quoted "Update" +:+ ")";
   ".success-modal-btn"].

Definition verifySelectors : list string :=
  ["#verify-address-btn";
   "button[id=" +:+ quoted "verify-address-btn" +:+ "]";
   ".modal-footer button";
   "button:has-text(" +:+ quoted "Verify Address" +:+ ")";
   ".btn-primary:has-text(" +:+ quoted "Verify Address" +:+ ")";
   ".success-modal-btn:has-text(" +:+ quoted "Verify Address" +:+ ")"].

Definition addToCartSelectors : list string :=
  ["#add-to-cart-btn";
   "button[id=" +:+ quoted "add-to-cart-btn" +:+ "]";
   ".modal-footer button:has-text(" +:+ quoted "Add to Cart" +:+ ")";
   "button:has-text(" +:+ quoted "Add to Cart" +:+ ")";
   ".btn-primary:has-text(" +:+ quoted "Add to Cart" +:+ ")";
   ".success-modal-btn:has-text(" +:+ quoted "Add to Cart" +:+ ")"].

Section Driver.

Variable w : World.
Variables TARGET_URL OUT_DIR : string.

(** An external call: the world answers, the call is logged. *)
Definition perform (c : Call) : M (Ret c) :=
  fun s =>
    let r := respond w (tick s) c in
    (r, {| browser := browser s; page := page s;
           tick := S (tick s); trace := (c, resolved r) :: trace s |}).

Definition date_now : M N := fun s => (inr (now w (tick s)), s).

Definition initBrowser : M unit :=
  b <- get_browser ;;
  match b with
  | Some _ => ret tt
  | None =>
      b <- perform CLaunch ;;
      set_browser b ;;
      context <- perform (CNewContext b) ;;
      p <- perform (CNewPage context) ;;
      set_page p ;;
      perform (CGoto p TARGET_URL) ;;
      perform (CWaitForTimeout p 3000)
  end.

(** [path.join(OUT_DIR, filename)] is [OUT_DIR], a separator and the
    file name: [OUT_DIR] is an absolute directory without a trailing
    separator and the file name has none. *)
Definition takeScreenshot (pg : option Page) (tag : string) : M string :=
  timestamp <- date_now ;;
  let filename := tag +:+ "-" +:+ pretty timestamp +:+ ".png" in
  let filepath := OUT_DIR +:+ "/" +:+ filename in
  p <- on_page pg "screenshot" ;;
  perform (CScreenshot p filepath) ;;
  ret filepath.

(** The loop over the selector candidates: the first selector that
    yields at least one element decides the candidate set. *)
Fixpoint firstNonEmpty (pg : option Page) (selectors : list string) : M (list Locator) :=
  match selectors with
  | [] => ret []
  | selector :: rest =>
      p <- on_page pg "locator" ;;
      elements <- perform (CLocatorAll p selector) ;;
      match elements with
      | [] => firstNonEmpty pg rest
      | _ :: _ => ret elements
      end
  end.

(** The loop over the candidate elements of [findAndClickItem]. *)
Fixpoint searchItems (menuItems : list Locator) (wanted : string) : M FindResult :=
  match menuItems with
  | [] =>
      ret {| find_success := false; find_found := false;
             find_error := Some ("Item " +:+ quoted wanted +:+ " not found on the menu");
             find_clickedElement := None |}
  | item :: rest =>
      nm <- perform (CGetAttribute item "item-name") ;;
      text <- perform (CTextContent item) ;;
      if isItemMatch (Js.or_default (Js.or_else nm text) EmptyString) wanted then
        try_catch
          (perform (CClick item) ;;
           ret {| find_success := true; find_found := true;
                  find_error := None;
                  find_clickedElement :=
                    Some (Js.or_default (Js.or_else nm text) "Unknown") |})
          (fun _ => searchItems rest wanted)
      else searchItems rest wanted
  end.

Definition findAndClickItem (pg : option Page) (wanted : string) : M FindResult :=
  menuItems <- firstNonEmpty pg itemSelectors ;;
  match menuItems with
  | [] =>
      ret {| find_success := false; find_found := false;
             find_error := Some "No menu items found on the page";
             find_clickedElement := None |}
  | _ :: _ => searchItems menuItems wanted
  end.

(** The loop the modal flow runs for each of its controls: the
    selectors are tried in order, the first element of the first
    selector that finds something is clicked; a selector that fails is
    skipped. The result tells whether a click went through. *)
Fixpoint clickFirstFound (p : Page) (selectors : list string) : M bool :=
  match selectors with
  | [] => ret false
  | selector :: rest =>
      clicked <- try_catch
                   (elements <- perform (CLocatorAll p selector) ;;
                    match elements with
                    | e0 :: _ => perform (CClick e0) ;; ret true
                    | [] => ret false
                    end)
                   (fun _ => ret false) ;;
      if (clicked : bool) then ret true else clickFirstFound p rest
  end.

Definition fillAddressForm (pg : option Page) : M unit :=
  try_catch
    (p <- on_page pg "waitForSelector" ;;
     perform (CWaitForSelector p "#address") ;;
     perform (CWaitForTimeout p 1000) ;;
     perform (CFill p "#address" "7th Ave, Seattle, WA") ;;
     perform (CWaitForTimeout p 500) ;;
     perform (CFill p "#apartment" EmptyString) ;;
     perform (CWaitForTimeout p 300) ;;
     perform (CFill p "#zipcode" "98101") ;;
     perform (CWaitForTimeout p 500) ;;
     perform (CFill p "#instructions"
                "Please leave at front door. No-contact delivery preferred.") ;;
     perform (CWaitForTimeout p 500) ;;
     perform (CWaitForTimeout p 1500) ;;
     clickFirstFound p verifySelectors ;;
     perform (CWaitForTimeout p 2000) ;;
     clickFirstFound p addToCartSelectors ;;
     perform (CWaitForTimeout p 2000))
    (fun _ => ret tt).

Definition handleOrderModal (pg : option Page) : M unit :=
  try_catch
    (p <- on_page pg "waitForSelector" ;;
     perform (CWaitForSelector p ".modal-body") ;;
     perform (CWaitForTimeout p 1000) ;;
     deliveryClicked <- clickFirstFound p deliverySelectors ;;
     (if (deliveryClicked : bool) then ret tt
      else
        let radioButton := First deliveryRadio in
        visible <- perform (CIsVisible radioButton) ;;
        if (visible : bool) then perform (CClick radioButton) else ret tt) ;;
     perform (CWaitForTimeout p 1000) ;;
     perform (CWaitForTimeout p 2000) ;;
     clickFirstFound p updateSelectors ;;
     perform (CWaitForTimeout p 1500) ;;
     fillAddressForm pg)
    (fun _ => ret tt).

Definition orderFoodItem (wanted : string) (qty : Z)
    (customizations : option (list (string * string))) : M OrderResult :=
  perform (CMkdir OUT_DIR) ;;
  initBrowser ;;
  try_catch
    (pg <- get_page ;;
     result <- findAndClickItem pg wanted ;;
     (if find_success result then handleOrderModal pg else ret tt) ;;
     shot <- takeScreenshot pg "item-clicked" ;;
     ret {| success := find_success result;
            itemName := wanted;
            quantity := qty;
            found := find_found result;
            screenshot := shot;
            error := spread_if_truthy (find_error result);
            clickedElement := spread_if_truthy (find_clickedElement result) |})
    (fun e =>
     pg <- get_page ;;
     shot <- takeScreenshot pg "click-error" ;;
     ret {| success := false;
            itemName := wanted;
            quantity := qty;
            found := false;
            screenshot := shot;
            error := Some (Js.message_or_string e);
            clickedElement := None |}).

(** The loop of [getMenuItems] over the candidate elements. *)
Fixpoint collectItems (menuItems : list Locator) : M (list MenuItem) :=
  match menuItems with
  | [] => ret []
  | item :: rest =>
      nm <- perform (CGetAttribute item "item-name") ;;
      pr <- perform (CGetAttribute item "item-price") ;;
      text <- perform (CTextContent item) ;;
      more <- collectItems rest ;;
      ret (match nm with
           | Some (String c n') =>
               {| name := String c n';
                  price := Js.or_default pr "0.00";
                  description := option_map (Js.take 100) text;
                  category := Some "Unknown";
                  available := true |} :: more
           | _ => more
           end)
  end.

Definition getMenuItems (pg : option Page) : M (list MenuItem) :=
  menuItems <- firstNonEmpty pg menuSelectors ;;
  collectItems menuItems.

Definition menuItemMatches (search : string) (item : MenuItem) : bool :=
  Js.includes (Js.toLowerCase (name item)) (Js.toLowerCase search) ||
  match description item with
  | Some d => Js.includes (Js.toLowerCase d) (Js.toLowerCase search)
  | None => false
  end.

Definition browseMenu (cat search : option string) : M (list MenuItem) :=
  initBrowser ;;
  try_catch
    (pg <- get_page ;;
     menuItems <- getMenuItems pg ;;
     ret (match search with
          | Some (String c s') => List.filter (menuItemMatches (String c s')) menuItems
          | _ => menuItems
          end))
    (fun _ => ret []).

Definition getCartContents : M CartContents :=
  ret {| items := ["Cart functionality not implemented yet"];
         total := "0.00";
         itemCount := 0 |}.

Definition clearCart : M ClearResult :=
  ret {| clear_success := false;
         clear_message := "Cart clearing not implemented yet" |}.

Definition proceedToCheckout : M CheckoutResult :=
  ret {| checkout_success := false;
         checkout_message := "Checkout not implemented yet";
         checkout_screenshot := "no-screenshot.png" |}.

(** *** The tool handlers of the ordering server

    Each handler answers with a list of text items; [stringify] stands
    for [JSON.stringify(_, null, 2)]. The arguments have been checked
    against the tool's schema before the handler runs. *)
Variable stringify : Js.Json -> string.

Record OrderFoodItemArgs := {
  arg_itemName : string;
  arg_quantity : option Z;
  arg_customizations : option (list (string * string));
}.

Definition order_food_item (args : OrderFoodItemArgs) : M (list string) :=
  let parsed_quantity := default 1%Z (arg_quantity args) in
  try_catch
    (result <- orderFoodItem (arg_itemName args) parsed_quantity
                 (arg_customizations args) ;;
     ret [stringify (OrderResult_json result)])
    (fun e =>
     ret ["Error ordering " +:+ arg_itemName args +:+ ": "
          +:+ Js.message_or_string e]).

Definition browse_menu (cat search : option string) : M (list string) :=
  try_catch
    (result <- browseMenu cat search ;;
     ret [stringify (Js.JArr (map MenuItem_json result))])
    (fun e => ret ["Error browsing menu: " +:+ Js.message_or_string e]).

Definition get_cart : M (list string) :=
  try_catch
    (result <- getCartContents ;;
     ret [stringify (CartContents_json result)])
    (fun e => ret ["Error getting cart: " +:+ Js.message_or_string e]).

Definition clear_cart : M (list string) :=
  try_catch
    (result <- clearCart ;;
     ret [stringify (ClearResult_json result)])
    (fun e => ret ["Error clearing cart: " +:+ Js.message_or_string e]).

Definition checkout : M (list string) :=
  try_catch
    (result <- proceedToCheckout ;;
     ret [stringify (CheckoutResult_json result)])
    (fun e => ret ["Error during checkout: " +:+ Js.message_or_string e]).

(** *** Sequences of public operations of the driver *)
Inductive Op :=
| OpOrder (wanted : string) (qty : Z) (customizations : option (list (string * string)))
| OpBrowse (cat search : option string)
| OpGetCart
| OpClearCart
| OpCheckout.

(** The state an operation leaves behind, whether it resolved or threw. *)
Definition run_op (op : Op) (s : DriverState) : DriverState :=
  match op with
  | OpOrder wanted qty cust => snd (orderFoodItem wanted qty cust s)
  | OpBrowse cat search => snd (browseMenu cat search s)
  | OpGetCart => snd (getCartContents s)
  | OpClearCart => snd (clearCart s)
  | OpCheckout => snd (proceedToCheckout s)
  end.

Definition run_ops (ops : list Op) (s : DriverState) : DriverState :=
  fold_left (fun st op => run_op op st) ops s.

End Driver.

(** The browser sessions created so far: the launches that resolved. *)
Definition is_launch (ev : Call * bool) : bool :=
  match ev with
  | (CLaunch, true) => true
  | _ => false
  end.

Definition sessions_created (s : DriverState) : nat :=
  length (List.filter is_launch (trace s)).

(** ** The Calendar/Gmail wrappers *)

(** The requests sent to the remote services, with the parameter
    object each one carries. *)
Inductive Request :=
| ReqCalendarList
| ReqEventsInsert (calendarId : string) (requestBody : gmap string Js.Json)
    (sendUpdates : string)
| ReqEventsList (params : gmap string Js.Json)
| ReqMessagesList (params : gmap string Js.Json)
| ReqMessagesGet (userId id format : string)
| ReqMessagesSend (userId raw : string).

(** The remote side: [getAuth()] resolves or throws, and every request
    resolves to its [response.data] or throws. *)
Record Remote := {
  getAuth : Js.Thrown + unit;
  answer : Request -> Js.Thrown + Js.Json;
}.

(** A handler's computation: its result or the value it throws, with
    the requests it has sent, in order. *)
Definition G (A : Type) : Type := (Js.Thrown + A) * list Request.

Definition gret {A} (a : A) : G A := (inr a, []).

Definition gthrow {A} (t : Js.Thrown) : G A := (inl t, []).

Definition glift {A} (r : Js.Thrown + A) : G A := (r, []).

Definition gbind {A B} (m : G A) (k : A -> G B) : G B :=
  match m with
  | (inr a, sent) => let (r, sent') := k a in (r, (sent ++ sent')%list)
  | (inl t, sent) => (inl t, sent)
  end.

Definition gtry {A} (m : G A) (h : Js.Thrown -> G A) : G A :=
  match m with
  | (inr a, sent) => (inr a, sent)
  | (inl t, sent) => let (r, sent') := h t in (r, (sent ++ sent')%list)
  end.

Declare Scope google_scope.
Delimit Scope google_scope with google.
Notation "x <- m ;; k" := (gbind m (fun x => k))
  (at level 100, m at next level, right associativity) : google_scope.
Notation "m ;; k" := (gbind m (fun _ => k))
  (at level 100, right associativity) : google_scope.

(** *** Tool arguments (as received) and their parsed forms *)

Inductive OrderBy := startTime | updated.

Definition OrderBy_string (o : OrderBy) : string :=
  match o with startTime => "startTime" | updated => "updated" end.

Record CreateEventArgs := {
  ce_calendarId : string;
  ce_summary : string;
  ce_description : option string;
  ce_location : option string;
  ce_attendees : option (list string);
  ce_start : string;
  ce_end : string;
  ce_timeZone : option string;
  ce_colorId : option string;
}.

Record ListEventsArgs := {
  le_calendarId : string;
  le_maxResults : option Z;
  le_timeMin : option string;
  le_timeMax : option string;
  le_singleEvents : option bool;
  le_orderBy : option OrderBy;
}.

Record ListEmailsArgs := {
  lm_userId : option string;
  lm_maxResults : option Z;
  lm_q : option string;
  lm_labelIds : option (list string);
  lm_includeSpamTrash : option bool;
}.

Record GetEmailArgs := {
  ge_userId : option string;
  ge_id : string;
  ge_format : option string;
}.

Record SendEmailArgs := {
  se_userId : option string;
  se_to : list string;
  se_cc : option (list string);
  se_bcc : option (list string);
  se_subject : string;
  se_body : string;
  se_isHtml : option bool;
}.

Record SearchEmailsArgs := {
  sr_userId : option string;
  sr_query : string;
  sr_maxResults : option Z;
}.

(** [parsed.timeZone] of the two event tools. *)
Definition parsed_timeZone (a : CreateEventArgs) : string :=
  default "America/Los_Angeles" (ce_timeZone a).

(** [parsed.colorId || suggestColorId(parsed.summary, parsed.description)]. *)
Definition chosenColorId (a : CreateEventArgs) : string :=
  Js.or_default (ce_colorId a) (suggestColorId (ce_summary a) (ce_description a)).

Definition dateTime_json (dateTime timeZone : string) : Js.Json :=
  Js.JObj [("dateTime", Js.JStr dateTime); ("timeZone", Js.JStr timeZone)].

(** [if (v) { obj[key] = v }] for a possibly absent string. *)
Definition set_if_truthy (key : string) (v : option string)
    (obj : gmap string Js.Json) : gmap string Js.Json :=
  match v with
  | Some (String c s) => <[key := Js.JStr (String c s)]> obj
  | _ => obj
  end.

Definition set_attendees (v : option (list string))
    (obj : gmap string Js.Json) : gmap string Js.Json :=
  match v with
  | Some (e :: es) =>
      <["attendees" :=
          Js.JArr (map (fun x => Js.JObj [("email", Js.JStr x)]) (e :: es))]> obj
  | _ => obj
  end.

(** The [event] object of [create_event]; [recurrence] is the extra
    field of [create_recurring_event]. *)
Definition eventObject (a : CreateEventArgs) (recurrence : option string)
    : gmap string Js.Json :=
  let literal : gmap string Js.Json :=
    <["colorId" := Js.JStr (chosenColorId a)]>
      (match recurrence with
       | Some rule => <["recurrence" := Js.JArr [Js.JStr ("RRULE:" +:+ rule)]]>
       | None => fun obj => obj
       end
         (<["end" := dateTime_json (ce_end a) (parsed_timeZone a)]>
            (<["start" := dateTime_json (ce_start a) (parsed_timeZone a)]>
               (<["summary" := Js.JStr (ce_summary a)]> ∅)))) in
  set_attendees (ce_attendees a)
    (set_if_truthy "location" (ce_location a)
       (set_if_truthy "description" (ce_description a) literal)).

(** The [listParams] object of [list_events]. *)
Definition listEventsParams (a : ListEventsArgs) : gmap string Js.Json :=
  let literal : gmap string Js.Json :=
    <["orderBy" := Js.JStr (OrderBy_string (default startTime (le_orderBy a)))]>
      (<["singleEvents" := Js.JBool (default true (le_singleEvents a))]>
         (<["maxResults" := Js.JNum (default 10%Z (le_maxResults a))]>
            (<["calendarId" := Js.JStr (le_calendarId a)]> ∅))) in
  set_if_truthy "timeMax" (le_timeMax a)
    (set_if_truthy "timeMin" (le_timeMin a) literal).

(** The [listParams] object of [list_emails]. *)
Definition listEmailsParams (a : ListEmailsArgs) : gmap string Js.Json :=
  let literal : gmap string Js.Json :=
    <["includeSpamTrash" := Js.JBool (default false (lm_includeSpamTrash a))]>
      (<["maxResults" := Js.JNum (default 10%Z (lm_maxResults a))]>
         (<["userId" := Js.JStr (default "me" (lm_userId a))]> ∅)) in
  match lm_labelIds a with
  | Some (l :: ls) => <["labelIds" := Js.JArr (map Js.JStr (l :: ls))]>
  | _ => fun obj => obj
  end (set_if_truthy "q" (lm_q a) literal).

Definition searchEmailsParams (a : SearchEmailsArgs) : gmap string Js.Json :=
  <["maxResults" := Js.JNum (default 10%Z (sr_maxResults a))]>
    (<["q" := Js.JStr (sr_query a)]>
       (<["userId" := Js.JStr (default "me" (sr_userId a))]> ∅)).

(** [xs.join(", ")]. *)
Fixpoint join_comma (xs : list string) : string :=
  match xs with
  | [] => EmptyString
  | [x] => x
  | x :: rest => x +:+ ", " +:+ join_comma rest
  end.

Definition crlf : string :=
  String (ascii_of_nat 13) (String (ascii_of_nat 10) EmptyString).

(** The message text [send_email] assembles before encoding it. *)
Definition emailText (a : SendEmailArgs) : string :=
  let to := join_comma (se_to a) in
  let cc := match se_cc a with
            | Some l => "Cc: " +:+ join_comma l +:+ crlf
            | None => EmptyString
            end in
  let bcc := match se_bcc a with
             | Some l => "Bcc: " +:+ join_comma l +:+ crlf
             | None => EmptyString
             end in
  "To: " +:+ to +:+ crlf +:+ cc +:+ bcc
  +:+ "Subject: " +:+ se_subject a +:+ crlf
  +:+ "Content-Type: "
  +:+ (if default false (se_isHtml a) then "text/html" else "text/plain")
  +:+ "; charset=" +:+ quoted "UTF-8" +:+ crlf
  +:+ crlf +:+ se_body a.

Section Google.

Variable remote : Remote.

(** The text each handler builds from [response.data] on success
    (field selection and [JSON.stringify]); the construction may itself
    throw on an unexpected response. [base64url] is the encoding applied
    to the outgoing message. *)
Variables format_calendars format_created format_recurring format_events
  format_emails format_email format_sent : Js.Json -> Js.Thrown + string.
Variable base64url : string -> string.

#[local] Open Scope google_scope.

Definition call (r : Request) : G Js.Json := (answer remote r, [r]).

Definition authenticate : G unit := glift (getAuth remote).

(** The arguments of the [console.log] in the [catch] of
    [list_calendars]: [err?.response?.status] and
    [err?.response.data || err?.message]. The second reads [data] off
    [err.response] without guarding against its absence. *)
Definition log_calendar_error (err : Js.Thrown) : G unit :=
  match err with
  | Js.ThrownError e =>
      match Js.err_response e with
      | Some _ => gret tt
      | None => gthrow (Js.TypeError_read "undefined" "data")
      end
  | Js.ThrownValue _ => gthrow (Js.TypeError_read "undefined" "data")
  end.

Definition list_calendars : G (list string) :=
  gtry
    (authenticate ;;
     data <- call ReqCalendarList ;;
     text <- glift (format_calendars data) ;;
     gret [text])
    (fun err =>
     log_calendar_error err ;;
     gret ["Error: " +:+ Js.message_or_self err]).

Definition create_event (a : CreateEventArgs) : G (list string) :=
  authenticate ;;
  let event := eventObject a None in
  data <- call (ReqEventsInsert (ce_calendarId a) event "all") ;;
  text <- glift (format_created data) ;;
  gret [text].

Definition create_recurring_event (a : CreateEventArgs) (recurrence : string)
    : G (list string) :=
  authenticate ;;
  let event := eventObject a (Some recurrence) in
  gtry
    (data <- call (ReqEventsInsert (ce_calendarId a) event "all") ;;
     text <- glift (format_recurring data) ;;
     gret [text])
    (fun err =>
     gret ["Error creating recurring event: " +:+ Js.message_or_self err]).

Definition list_events (a : ListEventsArgs) : G (list string) :=
  authenticate ;;
  gtry
    (data <- call (ReqEventsList (listEventsParams a)) ;;
     text <- glift (format_events data) ;;
     gret [text])
    (fun err => gret ["Error listing events: " +:+ Js.message_or_self err]).

Definition list_emails (a : ListEmailsArgs) : G (list string) :=
  authenticate ;;
  gtry
    (data <- call (ReqMessagesList (listEmailsParams a)) ;;
     text <- glift (format_emails data) ;;
     gret [text])
    (fun err => gret ["Error listing emails: " +:+ Js.message_or_self err]).

Definition get_email (a : GetEmailArgs) : G (list string) :=
  authenticate ;;
  gtry
    (data <- call (ReqMessagesGet (default "me" (ge_userId a)) (ge_id a)
                     (default "full" (ge_format a))) ;;
     text <- glift (format_email data) ;;
     gret [text])
    (fun err => gret ["Error getting email: " +:+ Js.message_or_self err]).

Definition send_email (a : SendEmailArgs) : G (list string) :=
  authenticate ;;
  gtry
    (let encodedEmail := base64url (emailText a) in
     data <- call (ReqMessagesSend (default "me" (se_userId a)) encodedEmail) ;;
     text <- glift (format_sent data) ;;
     gret [text])
    (fun err => gret ["Error sending email: " +:+ Js.message_or_self err]).

Definition search_emails (a : SearchEmailsArgs) : G (list string) :=
  authenticate ;;
  gtry
    (data <- call (ReqMessagesList (searchEmailsParams a)) ;;
     text <- glift (format_emails data) ;;
     gret [text])
    (fun err => gret ["Error searching emails: " +:+ Js.message_or_self err]).

End Google.

(** ** Sample worlds and arguments *)

(** A page on which nothing is found and nothing fails. *)
Definition quietAnswer (c : Call) : Js.Thrown + Ret c :=
  match c return Js.Thrown + Ret c with
  | CLaunch => inr 1
  | CNewContext _ => inr 1
  | CNewPage _ => inr 1
  | CLocatorAll _ _ => inr []
  | CGetAttribute _ _ => inr None
  | CTextContent _ => inr None
  | CIsVisible _ => inr false
  | _ => inr tt
  end.

Definition quietWorld : World :=
  {| respond := fun _ c => quietAnswer c; now := fun _ => 1700000000000%N |}.

(** The target site does not answer: [page.goto] times out. *)
Definition gotoTimeout : Js.Thrown :=
  Js.ThrownError (Js.mkError "page.goto: Timeout 30000ms exceeded.").

Definition navigationTimeoutWorld : World :=
  {| respond := fun _ c =>
       match c return Js.Thrown + Ret c with
       | CGoto _ _ => inl gotoTimeout
       | c' => quietAnswer c'
       end;
     now := fun _ => 1700000000000%N |}.

(** The page has crashed: listing elements fails, screenshots still work. *)
Definition pageCrashed : Js.Thrown :=
  Js.ThrownError (Js.mkError "locator.all: Target crashed").

Definition crashedPageWorld : World :=
  {| respond := fun _ c =>
       match c return Js.Thrown + Ret c with
       | CLocatorAll _ _ => inl pageCrashed
       | c' => quietAnswer c'
       end;
     now := fun _ => 1700000000000%N |}.



(** The menu has one card, with neither an [item-name] attribute nor
    any text. *)
Definition blankCardWorld : World :=
  {| respond := fun _ c =>
       match c return Js.Thrown + Ret c with
       | CLocatorAll _ _ => inr [Handle 0]
       | c' => quietAnswer c'
       end;
     now := fun _ => 1700000000000%N |}.

Definition sampleUrl : string := "https://www.nycdelimarket.com/order".
Definition sampleOutDir : string := "/srv/ada/orders".

(** A remote service that rejects every event insertion with [err]. *)
Definition insertFailsRemote (err : Js.Thrown) : Remote :=
  {| getAuth := inr tt;
     answer := fun r =>
       match r with
       | ReqEventsInsert _ _ _ => inl err
       | _ => inr Js.JNull
       end |}.

(** A remote service that is unreachable: every request fails with an
    error that carries no HTTP response. *)
Definition unreachableRemote : Remote :=
  {| getAuth := inr tt;
     answer := fun _ => inl (Js.ThrownError (Js.mkError "getaddrinfo ENOTFOUND www.googleapis.com")) |}.

(** A remote service that accepts everything. *)
Definition acceptingRemote : Remote :=
  {| getAuth := inr tt; answer := fun _ => inr Js.JNull |}.

Definition notFound : Js.Thrown :=
  Js.ThrownError {| Js.err_name := "Error"; Js.err_message := "Not Found";
                    Js.err_response := Some 404%Z |}.

Definition plainText (j : Js.Json) : Js.Thrown + string := inr "ok".

Definition standupArgs (color : option string) : CreateEventArgs :=
  {| ce_calendarId := "primary";
     ce_summary := "Team standup meeting";
     ce_description := None;
     ce_location := None;
     ce_attendees := None;
     ce_start := "2025-01-06T09:00:00-08:00";
     ce_end := "2025-01-06T09:15:00-08:00";
     ce_timeZone := None;
     ce_colorId := color |}.

Definition primaryEventsArgs : ListEventsArgs :=
  {| le_calendarId := "primary";
     le_maxResults := None;
     le_timeMin := None;
     le_timeMax := None;
     le_singleEvents := None;
     le_orderBy := None |}.

(** ** Specification-side notions *)

(** [t] occurs in [s] as a contiguous block of code units. *)
Definition contains (s t : string) : Prop :=
  exists pre post, s = pre +:+ t +:+ post.

(** [w] occurs in [text] as a whole word: no word character stands
    immediately before or immediately after the occurrence. *)
Definition whole_word (w text : string) : Prop :=
  exists pre post,
    text = pre +:+ w +:+ post /\
    Js.is_word (Js.last_char None pre) = false /\
    Js.is_word (Js.first_char post) = false.

Definition has_keyword (ws : list string) (text : string) : Prop :=
  exists w, In w ws /\ whole_word w text.

(** A keyword is not empty and both starts and ends with a word
    character (so that [\b] on either side of it means that no word
    character is adjacent). *)
Definition keyword_ok (w : string) : bool :=
  Js.is_word (Js.first_char w) && Js.is_word (Js.last_char None w).

Definition allCategoryWords : list string :=
  (workWords ++ socialWords ++ healthWords ++ learningWords ++ travelWords)%list.

Definition colorIds : list string :=
  ["1"; "2"; "3"; "4"; "5"; "6"; "7"; "8"; "9"; "10"; "11"].

(** [s'] has the session of [s]: same [browser], same [page], and no
    further browser session created. *)
Definition same_session (s s' : DriverState) : Prop :=
  browser s' = browser s /\ page s' = page s /\
  sessions_created s' = sessions_created s.

(** A computation that never touches the session, whether it resolves
    or throws. *)
Definition Stable {A} (m : M A) : Prop :=
  forall s, same_session s (snd (m s)).

(** The invariant of the module-level [browser] variable: as long as
    it is [null] no session has been created, and never more than one. *)
Definition session_inv (s : DriverState) : Prop :=
  match browser s with
  | None => sessions_created s = 0
  | Some _ => sessions_created s <= 1
  end.

Definition Preserves {A} (m : M A) : Prop :=
  forall s, session_inv s -> session_inv (snd (m s)).




(** ** Further notions about logged calls *)

(** The clicks that went through. *)
Definition is_click_ok (ev : Call * bool) : bool :=
  match ev with
  | (CClick _, true) => true
  | _ => false
  end.

(** The clicks attempted, whether they went through or not. *)
Definition is_click (ev : Call * bool) : bool :=
  match ev with
  | (CClick _, _) => true
  | _ => false
  end.

(** The fields filled so far, oldest first, each with its value. *)
Definition filled (tr : list (Call * bool)) : list (string * string) :=
  rev (flat_map (fun ev => match ev with
                           | (CFill _ sel v, true) => [(sel, v)]
                           | _ => []
                           end) tr).

(** ** Further sample worlds *)

(** A menu with one card, "Bagel". *)
Definition bagelWorld : World :=
  {| respond := fun _ c =>
       match c return Js.Thrown + Ret c with
       | CLocatorAll _ _ => inr [Handle 0]
       | CGetAttribute _ _ => inr (Some "Bagel")
       | CTextContent _ => inr (Some "Bagel 3.50")
       | c' => quietAnswer c'
       end;
     now := fun _ => 1700000000000%N |}.

Definition clickIntercepted : Js.Thrown :=
  Js.ThrownError (Js.mkError "locator.click: element intercepts pointer events").

(** The same menu, on which every click fails. *)
Definition stubbornWorld : World :=
  {| respond := fun _ c =>
       match c return Js.Thrown + Ret c with
       | CLocatorAll _ _ => inr [Handle 0]
       | CGetAttribute _ _ => inr (Some "Bagel")
       | CTextContent _ => inr (Some "Bagel 3.50")
       | CClick _ => inl clickIntercepted
       | c' => quietAnswer c'
       end;
     now := fun _ => 1700000000000%N |}.

Definition modalTimeout : Js.Thrown :=
  Js.ThrownError (Js.mkError "page.waitForSelector: Timeout 10000ms exceeded.").

(** The same menu, on which no modal ever shows up. *)
Definition noModalWorld : World :=
  {| respond := fun _ c =>
       match c return Js.Thrown + Ret c with
       | CLocatorAll _ _ => inr [Handle 0]
       | CGetAttribute _ _ => inr (Some "Bagel")
       | CTextContent _ => inr (Some "Bagel 3.50")
       | CWaitForSelector _ _ => inl modalTimeout
       | c' => quietAnswer c'
       end;
     now := fun _ => 1700000000000%N |}.

Definition contextFailed : Js.Thrown :=
  Js.ThrownError (Js.mkError "browser.newContext: Target closed").

(** The browser starts but no context can be opened in it. *)
Definition noContextWorld : World :=
  {| respond := fun _ c =>
       match c return Js.Thrown + Ret c with
       | CNewContext _ => inl contextFailed
       | c' => quietAnswer c'
       end;
     now := fun _ => 1700000000000%N |}.

(** A locator query or a click: the only calls [clickFirstFound] makes. *)
Definition is_query_or_click (ev : Call * bool) : bool :=
  match ev with
  | (CLocatorAll _ _, _) => true
  | (CClick _, _) => true
  | _ => false
  end.

(** What one logged call contributes to [filled]. *)
Definition fill_of (ev : Call * bool) : list (string * string) :=
  match ev with
  | (CFill _ sel v, true) => [(sel, v)]
  | _ => []
  end.

(** The values [fillAddressForm] types into the address form. *)
Definition addressFormValues : list (string * string) :=
  [("#address", "7th Ave, Seattle, WA");
   ("#apartment", EmptyString);
   ("#zipcode", "98101");
   ("#instructions", "Please leave at front door. No-contact delivery preferred.")].

(** The two shapes of a result of the candidate loop. *)
Definition found_shape (result : FindResult) : Prop :=
  find_success result = true /\ find_found result = true /\
  find_error result = None /\ Js.truthy (find_clickedElement result) = true.

Definition missed_shape (result : FindResult) : Prop :=
  find_success result = false /\ find_found result = false /\
  Js.truthy (find_error result) = true /\ find_clickedElement result = None.

(** A locator query: the only call the selector loop of
    [findAndClickItem] makes. *)
Definition is_query (ev : Call * bool) : bool :=
  match ev with
  | (CLocatorAll _ _, _) => true
  | _ => false
  end.

(** What every scraped menu item looks like. *)
Definition scraped_item (m : MenuItem) : Prop :=
  name m <> EmptyString /\ price m <> EmptyString /\
  category m = Some "Unknown" /\ available m = true /\
  match description m with
  | Some d => String.length d <= 100
  | None => True
  end.

(** A menu with one card named "Bagel", without a price attribute. *)
Definition pricelessWorld : World :=
  {| respond := fun _ c =>
       match c return Js.Thrown + Ret c with
       | CLocatorAll _ _ => inr [Handle 0]
       | CGetAttribute _ attr =>
           inr (if String.eqb attr "item-name" then Some "Bagel" else None)
       | CTextContent _ => inr (Some "Bagel, toasted, with cream cheese")
       | c' => quietAnswer c'
       end;
     now := fun _ => 1700000000000%N |}.

(** ** Further notions about the Calendar/Gmail handlers *)

(** Whether a thrown value is an error that carries an HTTP response. *)
Definition has_response (t : Js.Thrown) : bool :=
  match t with
  | Js.ThrownError e =>
      match Js.err_response e with Some _ => true | None => false end
  | Js.ThrownValue _ => false
  end.

(** What a handler that guards its request answers once authenticated:
    the one request is sent, and its failure, or the failure to build
    the answer from the response, comes back as a text with the
    handler's prefix. *)
Definition guarded_outcome (remote : Remote) (fmt : Js.Json -> Js.Thrown + string)
    (prefix : string) (req : Request) : G (list string) :=
  match answer remote req with
  | inl err => (inr [prefix +:+ Js.message_or_self err], [req])
  | inr data =>
      match fmt data with
      | inl err => (inr [prefix +:+ Js.message_or_self err], [req])
      | inr text => (inr [text], [req])
      end
  end.

Definition fullEventArgs : CreateEventArgs :=
  {| ce_calendarId := "primary";
     ce_summary := "Pottery workshop";
     ce_description := Some "Bring an apron";
     ce_location := Some EmptyString;
     ce_attendees := Some ["sam@example.com"];
     ce_start := "2025-01-06T18:00:00-08:00";
     ce_end := "2025-01-06T20:00:00-08:00";
     ce_timeZone := Some "Europe/Paris";
     ce_colorId := None |}.

Definition authFailed : Js.Thrown :=
  Js.ThrownError (Js.mkError "Authentication failed: Error: invalid_grant").

(** A remote service whose authentication fails. *)
Definition lockedOutRemote : Remote :=
  {| getAuth := inl authFailed; answer := fun _ => inr Js.JNull |}.

(** ** Authentication ([loadSavedCredentialsIfExist], [saveCredentials],
    [getAuth]) *)

(** The files on disk, by path. Reading a missing file fails. A write
    either goes through and replaces the content of the file, or is
    refused (no permission, a directory in the way, a read-only disk)
    and leaves the files as they were. *)
Definition ENOENT (path : string) : Js.Thrown :=
  Js.ThrownError
    {| Js.err_name := "Error";
       Js.err_message := "ENOENT: no such file or directory, open '" +:+ path +:+ "'";
       Js.err_response := None |}.

Definition readFile (fs : gmap string string) (path : string) : Js.Thrown + string :=
  match fs !! path with
  | Some content => inr content
  | None => inl (ENOENT path)
  end.

(** An OAuth2 client, with the refresh token of its credentials. *)
Record OAuthClient := {
  client_handle : nat;
  client_refresh_token : option string;
}.

(** What authentication relies on besides the files: [JSON.parse],
    [JSON.stringify(_, null, 2)], [google.auth.fromJSON], the
    interactive consent flow of [authenticate], which reads the key
    file, and the file system's verdict on a write ([write_refused]
    gives the error of [fs.writeFile] when it rejects). *)
Record AuthEnv := {
  json_parse : string -> Js.Thrown + Js.Json;
  json_stringify : Js.Json -> string;
  auth_fromJSON : Js.Json -> Js.Thrown + OAuthClient;
  auth_interactive : gmap string string -> Js.Thrown + OAuthClient;
  write_refused : gmap string string -> string -> string -> option Js.Thrown;
}.

(** [fs.writeFile(path, content, "utf-8")]. *)
Definition writeFile (env : AuthEnv) (fs : gmap string string)
    (path content : string) : (Js.Thrown + unit) * gmap string string :=
  match write_refused env fs path content with
  | Some e => (inl e, fs)
  | None => (inr tt, <[path := content]> fs)
  end.

(** [String(t)], as in a template literal. *)
Definition thrown_to_string (t : Js.Thrown) : string :=
  match t with
  | Js.ThrownError e => Js.error_toString e
  | Js.ThrownValue r => r
  end.

(** Truthiness of a JSON value that may be [undefined]. *)
Definition json_truthy (v : option Js.Json) : bool :=
  match v with
  | None => false
  | Some Js.JNull => false
  | Some (Js.JBool b) => b
  | Some (Js.JNum n) => negb (Z.eqb n 0)
  | Some (Js.JStr s) => match s with EmptyString => false | _ => true end
  | Some (Js.JArr _) => true
  | Some (Js.JObj _) => true
  end.

(** [j.key]: reading a property of [null] throws. *)
Definition get_prop (j : Js.Json) (key : string) : Js.Thrown + option Js.Json :=
  match j with
  | Js.JNull => inl (Js.TypeError_read "null" key)
  | _ => inr (Js.field key j)
  end.

(** [a ?? b] on values that may be [undefined]. *)
Definition nullish_or (a b : option Js.Json) : option Js.Json :=
  match a with
  | None => b
  | Some Js.JNull => b
  | Some v => Some v
  end.

(** [key?.prop]. *)
Definition opt_prop (key : option Js.Json) (prop : string) : option Js.Json :=
  match key with
  | None => None
  | Some Js.JNull => None
  | Some j => Js.field prop j
  end.

(** [key] is the entry of the parsed key file [keys] that holds the
    client's identifiers: its [installed] entry or, when there is none
    (or a [null] one), its [web] entry. *)
Definition client_key (keys key : Js.Json) : Prop :=
  keys <> Js.JNull /\ key <> Js.JNull /\
  (Js.field "installed" keys = Some key \/
   ((Js.field "installed" keys = None \/
     Js.field "installed" keys = Some Js.JNull) /\
    Js.field "web" keys = Some key)).

Definition missingClientKeys : Js.Thrown :=
  Js.ThrownError
    (Js.mkError
       "credentials.json missing client_id/client_secret (expected OAuth client credentials).").

(** The [payload] written to the token file. *)
Definition tokenPayload (client_id client_secret : Js.Json) (client : OAuthClient)
    : Js.Json :=
  Js.JObj
    ([("type", Js.JStr "authorized_user");
      ("client_id", client_id);
      ("client_secret", client_secret)]
     ++ Js.opt_field "refresh_token" (client_refresh_token client)).

Section Authentication.

Variable env : AuthEnv.
Variables CREDENTIALS_PATH TOKEN_PATH : string.

(** Never rejects: any failure is answered with [null]. *)
Definition loadSavedCredentialsIfExist (fs : gmap string string) : option OAuthClient :=
  match readFile fs TOKEN_PATH with
  | inl _ => None
  | inr content =>
      match json_parse env content with
      | inl _ => None
      | inr credentials =>
          match auth_fromJSON env credentials with
          | inl _ => None
          | inr client => Some client
          end
      end
  end.

(** The test [!key?.client_id || !key?.client_secret] passes exactly
    when both properties are there and truthy. *)
Definition saveCredentials (client : OAuthClient) (fs : gmap string string)
    : (Js.Thrown + unit) * gmap string string :=
  match readFile fs CREDENTIALS_PATH with
  | inl e => (inl e, fs)
  | inr raw =>
      match json_parse env raw with
      | inl e => (inl e, fs)
      | inr keys =>
          match get_prop keys "installed" with
          | inl e => (inl e, fs)
          | inr installed =>
              let key := nullish_or installed (Js.field "web" keys) in
              match opt_prop key "client_id", opt_prop key "client_secret" with
              | Some id, Some secret =>
                  if json_truthy (Some id) && json_truthy (Some secret)
                  then
                    writeFile env fs TOKEN_PATH
                      (json_stringify env (tokenPayload id secret client))
                  else (inl missingClientKeys, fs)
              | _, _ => (inl missingClientKeys, fs)
              end
          end
      end
  end.

(** The body of the [try] of [getAuth]. *)
Definition getAuth_body (fs : gmap string string)
    : (Js.Thrown + OAuthClient) * gmap string string :=
  match loadSavedCredentialsIfExist fs with
  | Some saved => (inr saved, fs)
  | None =>
      match auth_interactive env fs with
      | inl e => (inl e, fs)
      | inr client =>
          if Js.truthy (client_refresh_token client)
          then
            match saveCredentials client fs with
            | (inl e, fs') => (inl e, fs')
            | (inr _, fs') => (inr client, fs')
            end
          else (inr client, fs)
      end
  end.

Definition getAuth_files (fs : gmap string string)
    : (Js.Thrown + OAuthClient) * gmap string string :=
  match getAuth_body fs with
  | (inr client, fs') => (inr client, fs')
  | (inl e, fs') =>
      (inl (Js.ThrownError
              (Js.mkError ("Authentication failed: " +:+ thrown_to_string e))),
       fs')
  end.

(** The remote side seen by the handlers when authentication runs on
    the files [fs]. *)
Definition remoteOn (fs : gmap string string)
    (answers : Request -> Js.Thrown + Js.Json) : Remote :=
  {| getAuth := match fst (getAuth_files fs) with
                | inl e => inl e
                | inr _ => inr tt
                end;
     answer := answers |}.

End Authentication.

(** ** Sample files for authentication *)

Definition sampleKeys : Js.Json :=
  Js.JObj [("installed",
            Js.JObj [("client_id", Js.JStr "1234.apps.googleusercontent.com");
                     ("client_secret", Js.JStr "s3cr3t")])].

Definition sampleClient : OAuthClient :=
  {| client_handle := 7; client_refresh_token := Some "1//refresh" |}.

Definition samplePayload : Js.Json :=
  tokenPayload (Js.JStr "1234.apps.googleusercontent.com") (Js.JStr "s3cr3t")
    sampleClient.

(** An environment that knows two documents: the key file and the
    token file. *)
Definition sampleAuthEnv : AuthEnv :=
  {| json_parse := fun text =>
       if String.eqb text "<keys>" then inr sampleKeys
       else if String.eqb text "<token>" then inr samplePayload
       else inl (Js.ThrownError
                   {| Js.err_name := "SyntaxError";
                      Js.err_message := "Unexpected end of JSON input";
                      Js.err_response := None |});
     json_stringify := fun _ => "<token>";
     auth_fromJSON := fun _ => inr {| client_handle := 8;
                                      client_refresh_token := Some "1//refresh" |};
     auth_interactive := fun fs =>
       match fs !! "/srv/ada/credentials.json" with
       | Some _ => inr sampleClient
       | None => inl (ENOENT "/srv/ada/credentials.json")
       end;
     write_refused := fun _ _ _ => None |}.

(** A key file of a web application: it has a [web] entry and no
    [installed] entry. *)
Definition webKeys : Js.Json :=
  Js.JObj [("web",
            Js.JObj [("client_id", Js.JStr "5678.apps.googleusercontent.com");
                     ("client_secret", Js.JStr "w3bs3cr3t")])].

Definition webAuthEnv : AuthEnv :=
  {| json_parse := fun text =>
       if String.eqb text "<keys>" then inr webKeys
       else json_parse sampleAuthEnv text;
     json_stringify := json_stringify sampleAuthEnv;
     auth_fromJSON := auth_fromJSON sampleAuthEnv;
     auth_interactive := auth_interactive sampleAuthEnv;
     write_refused := fun _ _ _ => None |}.

(** The directory of the token file is read-only. *)
Definition writeDenied : Js.Thrown :=
  Js.ThrownError
    {| Js.err_name := "Error";
       Js.err_message := "EACCES: permission denied, open '/srv/ada/token.json'";
       Js.err_response := None |}.

Definition readOnlyAuthEnv : AuthEnv :=
  {| json_parse := json_parse sampleAuthEnv;
     json_stringify := json_stringify sampleAuthEnv;
     auth_fromJSON := auth_fromJSON sampleAuthEnv;
     auth_interactive := auth_interactive sampleAuthEnv;
     write_refused := fun _ _ _ => Some writeDenied |}.

Definition freshFiles : gmap string string :=
  {[ "/srv/ada/credentials.json" := "<keys>" ]}.

(** ** The chat loop ([chat.ts]) *)

(** White space of the ASCII range, as [String.prototype.trim] removes
    it: tab, line feed, vertical tab, form feed, carriage return and
    space (white space outside ASCII is not covered by this model). *)
Definition is_space (c : ascii) : bool :=
  let n := nat_of_ascii c in
  (Nat.leb 9 n && Nat.leb n 13) || Nat.eqb n 32.

Fixpoint trimStart (s : string) : string :=
  match s with
  | EmptyString => EmptyString
  | String c s' => if is_space c then trimStart s' else s
  end.

Fixpoint trimEnd (s : string) : string :=
  match s with
  | EmptyString => EmptyString
  | String c s' =>
      match trimEnd s' with
      | EmptyString => if is_space c then EmptyString else String c EmptyString
      | t => String c t
      end
  end.

Definition trim (s : string) : string := trimEnd (trimStart s).

(** [!user.trim() || user.trim().toLowerCase() === "exit"]. *)
Definition stops (user : string) : bool :=
  match trim user with
  | EmptyString => true
  | t => String.eqb (Js.toLowerCase t) "exit"
  end.

(** The two servers the chat is connected to. *)
Inductive Server := GoogleServer | OrderingServer.

Definition orderingTools : list string :=
  ["order_food_item"; "browse_menu"; "get_cart"; "clear_cart"; "checkout"].

(** [[...].includes(name)]. *)
Definition isOrderingTool (tool : string) : bool :=
  existsb (String.eqb tool) orderingTools.

Definition route (tool : string) : Server :=
  if isOrderingTool tool then OrderingServer else GoogleServer.

(** The names declared to the model in [tools], in order, and the names
    each server registers with [registerTool]. *)
Definition declaredTools : list string :=
  ["list_calendars"; "list_events"; "create_event"; "create_recurring_event";
   "list_emails"; "get_email"; "send_email"; "search_emails";
   "order_food_item"; "browse_menu"; "get_cart"; "clear_cart"; "checkout"].

Definition googleRegistered : list string :=
  ["list_calendars"; "create_event"; "create_recurring_event"; "list_events";
   "list_emails"; "get_email"; "send_email"; "search_emails"].

Definition orderingRegistered : list string :=
  ["order_food_item"; "browse_menu"; "get_cart"; "clear_cart"; "checkout"].

(** A tool call of the model: of type "function", with the name and
    the arguments as a JSON text, or of another type. *)
Inductive ToolCall :=
| FunctionCall (id tool arguments : string)
| OtherCall (id : string).

(** The message of the first choice of a completion. *)
Record ModelMessage := {
  msg_content : option string;
  msg_tool_calls : option (list ToolCall);
}.

(** The messages of the conversation. *)
Inductive Message :=
| SystemMsg (content : string)
| UserMsg (content : string)
| AssistantMsg (content : string)
| ModelMsg (msg : ModelMessage)
| ToolMsg (tool_call_id content : string).

(** The calls that leave the chat process. *)
Inductive ChatCall :=
| Completion (messages : list Message) (with_tools : bool)
| ToolInvocation (server : Server) (tool : string) (arguments : Js.Json).

(** The services the loop talks to: the model ([choices[0]?.message]
    of a completion, which may be missing), [JSON.parse],
    [client.callTool] on either server, and [JSON.stringify(_, null, 2)].
    The answers of the model and of the tools may depend on the number
    of calls made so far. *)
Record ChatWorld := {
  complete : nat -> list Message -> bool -> Js.Thrown + option ModelMessage;
  parse_arguments : string -> Js.Thrown + Js.Json;
  callTool : nat -> Server -> string -> Js.Json -> Js.Thrown + Js.Json;
  stringify_result : Js.Json -> string;
}.

(** The [history] array, with the number of calls made so far and
    their log, most recent first. *)
Record ChatState := {
  history : list Message;
  chat_tick : nat;
  chat_log : list ChatCall;
}.

Definition push (msgs : list Message) (st : ChatState) : ChatState :=
  {| history := (history st ++ msgs)%list;
     chat_tick := chat_tick st;
     chat_log := chat_log st |}.

Section Chat.

Variable cw : ChatWorld.

(** [openai.chat.completions.create({ messages: history, ... })]. *)
Definition askModel (with_tools : bool) (st : ChatState)
    : (Js.Thrown + option ModelMessage) * ChatState :=
  (complete cw (chat_tick st) (history st) with_tools,
   {| history := history st;
      chat_tick := S (chat_tick st);
      chat_log := Completion (history st) with_tools :: chat_log st |}).

(** [client.callTool({ name, arguments })] on the server the name is
    routed to. *)
Definition invoke (tool : string) (arguments : Js.Json) (st : ChatState)
    : (Js.Thrown + Js.Json) * ChatState :=
  (callTool cw (chat_tick st) (route tool) tool arguments,
   {| history := history st;
      chat_tick := S (chat_tick st);
      chat_log := ToolInvocation (route tool) tool arguments :: chat_log st |}).

(** [tc.function.arguments ? JSON.parse(tc.function.arguments) : {}]. *)
Definition argumentsOf (arguments : string) : Js.Thrown + Js.Json :=
  match arguments with
  | EmptyString => inr (Js.JObj [])
  | _ => parse_arguments cw arguments
  end.

(** The loop over [msg.tool_calls], building [toolResults]. *)
Fixpoint runToolCalls (calls : list ToolCall) (st : ChatState)
    : (Js.Thrown + list Message) * ChatState :=
  match calls with
  | [] => (inr [], st)
  | OtherCall _ :: rest => runToolCalls rest st
  | FunctionCall id tool arguments :: rest =>
      match argumentsOf arguments with
      | inl e => (inl e, st)
      | inr args =>
          match invoke tool args st with
          | (inl e, st1) => (inl e, st1)
          | (inr result, st1) =>
              match runToolCalls rest st1 with
              | (inl e, st2) => (inl e, st2)
              | (inr more, st2) =>
                  (inr (ToolMsg id (stringify_result cw result) :: more), st2)
              end
          end
      end
  end.

(** One pass of the [while] loop, for a line that does not stop it. *)
Definition chatTurn (user : string) (st : ChatState)
    : (Js.Thrown + unit) * ChatState :=
  let st0 := push [UserMsg user] st in
  match askModel true st0 with
  | (inl e, st1) => (inl e, st1)
  | (inr None, st1) => (inr tt, st1)
  | (inr (Some msg), st1) =>
      match msg_tool_calls msg with
      | Some (tc :: tcs) =>
          match runToolCalls (tc :: tcs) st1 with
          | (inl e, st2) => (inl e, st2)
          | (inr toolResults, st2) =>
              let st3 := push (ModelMsg msg :: toolResults) st2 in
              match askModel false st3 with
              | (inl e, st4) => (inl e, st4)
              | (inr final, st4) =>
                  let text :=
                    Js.or_default
                      (match final with Some m => msg_content m | None => None end)
                      "(no content)" in
                  (inr tt, push [AssistantMsg text] st4)
              end
          end
      | _ =>
          let text := Js.or_default (msg_content msg) "(no content)" in
          (inr tt, push [AssistantMsg text] st1)
      end
  end.

(** The [while (true)] loop, run on the lines typed so far. *)
Fixpoint chatLoop (inputs : list string) (st : ChatState)
    : (Js.Thrown + unit) * ChatState :=
  match inputs with
  | [] => (inr tt, st)
  | user :: rest =>
      if stops user then (inr tt, st)
      else
        match chatTurn user st with
        | (inl e, st') => (inl e, st')
        | (inr _, st') => chatLoop rest st'
        end
  end.

End Chat.

(** The state the loop starts from. *)
Definition chatStart (systemPrompt : string) : ChatState :=
  {| history := [SystemMsg systemPrompt]; chat_tick := 0; chat_log := [] |}.

(** The function calls among tool calls, in order. *)
Definition functionCalls (calls : list ToolCall) : list (string * string * string) :=
  flat_map (fun tc => match tc with
                      | FunctionCall id tool arguments => [(id, tool, arguments)]
                      | OtherCall _ => []
                      end) calls.

Definition tool_call_id_of (m : Message) : option string :=
  match m with
  | ToolMsg id _ => Some id
  | _ => None
  end.

(** The server and the name of a tool invocation of the log. *)
Definition invocation_of (c : ChatCall) : list (Server * string) :=
  match c with
  | ToolInvocation server tool _ => [(server, tool)]
  | Completion _ _ => []
  end.

Definition invocations (log : list ChatCall) : list (Server * string) :=
  rev (flat_map invocation_of log).

Definition is_completion (c : ChatCall) : bool :=
  match c with
  | Completion _ _ => true
  | ToolInvocation _ _ _ => false
  end.

(** ** A sample conversation *)

Definition orderCall : list ToolCall :=
  [FunctionCall "call_1" "order_food_item" "{itemName}";
   OtherCall "call_2";
   FunctionCall "call_3" "list_calendars" EmptyString].

(** A model that asks for two tools on its first turn, and tools that
    answer. *)
Definition sampleChatWorld : ChatWorld :=
  {| complete := fun _ _ with_tools =>
       if with_tools
       then inr (Some {| msg_content := None; msg_tool_calls := Some orderCall |})
       else inr (Some {| msg_content := Some "Done."; msg_tool_calls := None |});
     parse_arguments := fun _ => inr (Js.JObj [("itemName", Js.JStr "coffee")]);
     callTool := fun _ _ _ _ => inr (Js.JObj []);
     stringify_result := fun _ => "{}" |}.

Definition badArguments : Js.Thrown :=
  Js.ThrownError {| Js.err_name := "SyntaxError";
                    Js.err_message := "Unexpected token i in JSON at position 1";
                    Js.err_response := None |}.

(** The same model, with arguments that do not parse. *)
Definition brokenArgumentsWorld : ChatWorld :=
  {| complete := complete sampleChatWorld;
     parse_arguments := fun _ => inl badArguments;
     callTool := callTool sampleChatWorld;
     stringify_result := stringify_result sampleChatWorld |}.

(** A model that just answers. *)
Definition plainChatWorld : ChatWorld :=
  {| complete := fun _ _ _ =>
       inr (Some {| msg_content := Some "Hello!"; msg_tool_calls := Some [] |});
     parse_arguments := parse_arguments sampleChatWorld;
     callTool := callTool sampleChatWorld;
     stringify_result := stringify_result sampleChatWorld |}.

(** ** Facts about strings and the keyword patterns *)

Section StringFacts.

Lemma append_empty_r (s : string) : s +:+ EmptyString = s.
Proof. induction s as [|c s IH]; [reflexivity | cbn; now f_equal]. Qed.

Lemma append_assoc (a b c : string) : (a +:+ b) +:+ c = a +:+ b +:+ c.
Proof. induction a as [|x a IH]; [reflexivity | cbn; now f_equal]. Qed.

Lemma strip_prefix_spec (w s rest : string) :
  Js.strip_prefix w s = Some rest <-> s = w +:+ rest.
Proof.
  revert s; induction w as [|a w IH]; intros s; simpl.
  - split; [now intros [= ->] | now intros ->].
  - destruct s as [|b s]; [split; discriminate|].
    destruct (Ascii.eqb a b) eqn:E.
    + apply Ascii.eqb_eq in E; subst b. rewrite IH.
      split; [now intros -> | now intros [= ->]].
    + apply Ascii.eqb_neq in E. split; [discriminate | intros [= -> _]; now destruct E].
Qed.

Lemma startsWith_spec (s t : string) :
  Js.startsWith s t = true <-> exists post, s = t +:+ post.
Proof.
  unfold Js.startsWith. destruct (Js.strip_prefix t s) as [rest|] eqn:E.
  - apply strip_prefix_spec in E. split; [eauto | reflexivity].
  - split; [discriminate | intros [post H]].
    apply strip_prefix_spec in H. congruence.
Qed.

Lemma includes_spec (s t : string) :
  Js.includes s t = true <-> contains s t.
Proof.
  unfold contains. induction s as [|c s IH]; simpl.
  - rewrite orb_false_r, startsWith_spec. split.
    + intros [post H]. now exists EmptyString, post.
    + intros [pre [post H]]. destruct pre; [now exists post | discriminate].
  - rewrite orb_true_iff, startsWith_spec, IH. split.
    + intros [[post H] | [pre [post H]]].
      * now exists EmptyString, post.
      * exists (String c pre), post. simpl. now rewrite H.
    + intros [pre [post H]]. destruct pre as [|c' pre]; simpl in H.
      * left. now exists post.
      * right. injection H as _ H. now exists pre, post.
Qed.

Lemma includes_empty (s : string) : Js.includes s EmptyString = true.
Proof. destruct s; reflexivity. Qed.

Lemma first_char_append (w post : string) :
  w <> EmptyString -> Js.first_char (w +:+ post) = Js.first_char w.
Proof. destruct w; [congruence | reflexivity]. Qed.

Lemma last_char_append (prev : option ascii) (pre w : string) :
  Js.last_char prev (pre +:+ w) = Js.last_char (Js.last_char prev pre) w.
Proof. revert prev; induction pre as [|c pre IH]; intros prev; simpl; [reflexivity | apply IH]. Qed.

Lemma last_char_nonempty (p q : option ascii) (w : string) :
  w <> EmptyString -> Js.last_char p w = Js.last_char q w.
Proof. destruct w; [congruence | reflexivity]. Qed.

(** The search, read as a statement about occurrences: some
    alternative occurs with a word boundary on each side. *)
Lemma search_from_spec (ws : list string) (s : string) (prev : option ascii) :
  Js.search_from prev s ws = true <->
  exists pre post w,
    In w ws /\ s = pre +:+ w +:+ post /\
    Js.word_boundary (Js.last_char prev pre) (Js.first_char (w +:+ post)) = true /\
    Js.word_boundary (Js.last_char prev (pre +:+ w)) (Js.first_char post) = true.
Proof.
  assert (Here : forall prev s,
    existsb (Js.match_alt_at prev s) ws = true <->
    exists post w, In w ws /\ s = w +:+ post /\
      Js.word_boundary prev (Js.first_char (w +:+ post)) = true /\
      Js.word_boundary (Js.last_char prev w) (Js.first_char post) = true).
  { intros p t. rewrite existsb_exists. unfold Js.match_alt_at. split.
    - intros [x [Hin H]]. apply andb_true_iff in H as [H1 H2].
      destruct (Js.strip_prefix x t) as [rest|] eqn:E; [|discriminate].
      apply strip_prefix_spec in E. subst t. now exists rest, x.
    - intros [post [x [Hin [-> [H1 H2]]]]]. exists x. split; [assumption|].
      rewrite H1. simpl.
      now rewrite (proj2 (strip_prefix_spec x (x +:+ post) post) eq_refl). }
  revert prev; induction s as [|c s IH]; intros prev; simpl Js.search_from.
  - rewrite orb_false_r, Here. split.
    + intros [post [x [Hin [E [H1 H2]]]]]. now exists EmptyString, post, x.
    + intros [pre [post [x [Hin [E [H1 H2]]]]]].
      destruct pre; [now exists post, x | discriminate].
  - rewrite orb_true_iff, Here, IH. split.
    + intros [[post [x [Hin [E [H1 H2]]]]] | [pre [post [x [Hin [E [H1 H2]]]]]]].
      * now exists EmptyString, post, x.
      * exists (String c pre), post, x. simpl. now rewrite E.
    + intros [pre [post [x [Hin [E [H1 H2]]]]]].
      destruct pre as [|c' pre]; simpl in E, H1, H2.
      * left. now exists post, x.
      * right. injection E as -> E. now exists pre, post, x.
Qed.

Lemma keyword_ok_nonempty (w : string) : keyword_ok w = true -> w <> EmptyString.
Proof. destruct w; [discriminate | congruence]. Qed.

(** For keywords, the pattern matches exactly when one of them occurs
    as a whole word. *)
Lemma matches_spec (ws : list string) (text : string) :
  forallb keyword_ok ws = true ->
  Js.matches text ws = true <-> has_keyword ws text.
Proof.
  intros Hok. unfold Js.matches, has_keyword, whole_word.
  rewrite search_from_spec. rewrite forallb_forall in Hok.
  assert (Bnd : forall x pre post, In x ws ->
    (Js.word_boundary (Js.last_char None pre) (Js.first_char (x +:+ post)) = true /\
     Js.word_boundary (Js.last_char None (pre +:+ x)) (Js.first_char post) = true) <->
    (Js.is_word (Js.last_char None pre) = false /\
     Js.is_word (Js.first_char post) = false)).
  { intros x pre post Hin. specialize (Hok x Hin).
    pose proof (keyword_ok_nonempty x Hok) as Hne.
    apply andb_true_iff in Hok as [Hf Hl].
    rewrite (first_char_append x post Hne), last_char_append.
    rewrite (last_char_nonempty _ None x Hne).
    unfold Js.word_boundary. rewrite Hf, Hl.
    destruct (Js.is_word (Js.last_char None pre)), (Js.is_word (Js.first_char post));
      simpl; intuition congruence. }
  split.
  - intros [pre [post [x [Hin [E H]]]]]. exists x. split; [assumption|].
    exists pre, post. split; [assumption|]. now apply (Bnd x pre post Hin).
  - intros [x [Hin [pre [post [E H]]]]]. exists pre, post, x.
    split; [assumption|]. split; [assumption|]. now apply (Bnd x pre post Hin).
Qed.

Lemma matches_false (ws : list string) (text : string) :
  forallb keyword_ok ws = true ->
  Js.matches text ws = false <-> ~ has_keyword ws text.
Proof.
  intros Hok. rewrite <- (matches_spec ws text Hok).
  destruct (Js.matches text ws); split; congruence.
Qed.

End StringFacts.

(** ** The item matcher *)

(** C4. [isItemMatch] holds exactly when, after lowercasing both
    strings, the candidate contains the search term or the search term
    contains the candidate. "BEC Sandwich" does not match "bacon
    sandwich"; neither does "Bacon, Egg & Cheese Sandwich", since
    neither lowercased string contains the other. *)
Theorem isItemMatch_bidirectional_containment :
  (forall itemText searchTerm : string,
     isItemMatch itemText searchTerm = true <->
     contains (Js.toLowerCase itemText) (Js.toLowerCase searchTerm) \/
     contains (Js.toLowerCase searchTerm) (Js.toLowerCase itemText)) /\
  isItemMatch "BEC Sandwich" "bacon sandwich" = false /\
  isItemMatch "Bacon, Egg & Cheese Sandwich" "bacon sandwich" = false /\
  ~ contains (Js.toLowerCase "Bacon, Egg & Cheese Sandwich")
      (Js.toLowerCase "bacon sandwich") /\
  ~ contains (Js.toLowerCase "bacon sandwich")
      (Js.toLowerCase "Bacon, Egg & Cheese Sandwich").
Proof.
  split; [|split; [|split; [|split]]].
  - intros itemText searchTerm. unfold isItemMatch.
    now rewrite orb_true_iff, !includes_spec.
  - reflexivity.
  - reflexivity.
  - intros H. apply includes_spec in H. vm_compute in H. discriminate.
  - intros H. apply includes_spec in H. vm_compute in H. discriminate.
Qed.

(** ** The colour heuristic *)

Lemma workWords_ok : forallb keyword_ok workWords = true.
Proof. reflexivity. Qed.
Lemma workMeetingWords_ok : forallb keyword_ok workMeetingWords = true.
Proof. reflexivity. Qed.
Lemma workDeadlineWords_ok : forallb keyword_ok workDeadlineWords = true.
Proof. reflexivity. Qed.
Lemma socialWords_ok : forallb keyword_ok socialWords = true.
Proof. reflexivity. Qed.
Lemma healthWords_ok : forallb keyword_ok healthWords = true.
Proof. reflexivity. Qed.
Lemma learningWords_ok : forallb keyword_ok learningWords = true.
Proof. reflexivity. Qed.
Lemma travelWords_ok : forallb keyword_ok travelWords = true.
Proof. reflexivity. Qed.

Lemma has_keyword_app (xs ys : list string) (text : string) :
  has_keyword (xs ++ ys)%list text <-> has_keyword xs text \/ has_keyword ys text.
Proof.
  unfold has_keyword. split.
  - intros [x [Hin H]]. apply in_app_or in Hin as [Hin | Hin]; eauto.
  - intros [[x [Hin H]] | [x [Hin H]]]; exists x; split; auto using in_or_app.
Qed.

(** C5. When the lowercased text has a work keyword as a whole word,
    the suggested colour is "7", "8" or "9": "7" when a meeting-like
    keyword occurs, otherwise "8" when a deadline-like keyword occurs,
    otherwise "9". *)
Theorem suggestColorId_work_category (summary : string) (description : option string) :
  has_keyword workWords (colorText summary description) ->
  In (suggestColorId summary description) ["7"; "8"; "9"] /\
  (has_keyword workMeetingWords (colorText summary description) ->
   suggestColorId summary description = "7") /\
  (~ has_keyword workMeetingWords (colorText summary description) ->
   has_keyword workDeadlineWords (colorText summary description) ->
   suggestColorId summary description = "8") /\
  (~ has_keyword workMeetingWords (colorText summary description) ->
   ~ has_keyword workDeadlineWords (colorText summary description) ->
   suggestColorId summary description = "9").
Proof.
  intros Hwork. unfold suggestColorId.
  set (text := colorText summary description) in *.
  apply (matches_spec _ _ workWords_ok) in Hwork.
  unfold colorOfText. rewrite Hwork.
  destruct (Js.matches text workMeetingWords) eqn:Em;
    [apply (matches_spec _ _ workMeetingWords_ok) in Em
    |apply (matches_false _ _ workMeetingWords_ok) in Em];
    (destruct (Js.matches text workDeadlineWords) eqn:Ed;
     [apply (matches_spec _ _ workDeadlineWords_ok) in Ed
     |apply (matches_false _ _ workDeadlineWords_ok) in Ed]);
    repeat split; simpl; intros; try reflexivity; try tauto; auto.
Qed.

Lemma suggestColorId_work_category_witness :
  has_keyword workWords (colorText "Team standup meeting" None) /\
  In (suggestColorId "Team standup meeting" None) ["7"; "8"; "9"].
Proof.
  assert (H : has_keyword workWords (colorText "Team standup meeting" None)).
  { exists "team". split; [simpl; tauto|].
    exists EmptyString, " standup meeting ". repeat split. }
  split; [exact H|].
  exact (proj1 (suggestColorId_work_category "Team standup meeting" None H)).
Defined.

(** C6. The suggestion is "7" for "Team standup meeting", "2" for
    "Doctor appointment", and "1" for an empty summary and for any text
    in which no category keyword occurs. *)
Theorem suggestColorId_documented_examples :
  suggestColorId "Team standup meeting" None = "7" /\
  suggestColorId "Doctor appointment" None = "2" /\
  suggestColorId EmptyString None = "1" /\
  (forall (summary : string) (description : option string),
     ~ has_keyword allCategoryWords (colorText summary description) ->
     suggestColorId summary description = "1").
Proof.
  repeat split; try reflexivity.
  intros summary description Hnone. unfold suggestColorId.
  set (text := colorText summary description) in *.
  unfold allCategoryWords in Hnone. rewrite !has_keyword_app in Hnone.
  unfold colorOfText.
  rewrite (proj2 (matches_false workWords text workWords_ok)) by tauto.
  rewrite (proj2 (matches_false socialWords text socialWords_ok)) by tauto.
  rewrite (proj2 (matches_false healthWords text healthWords_ok)) by tauto.
  rewrite (proj2 (matches_false learningWords text learningWords_ok)) by tauto.
  rewrite (proj2 (matches_false travelWords text travelWords_ok)) by tauto.
  reflexivity.
Qed.

Lemma suggestColorId_documented_examples_witness :
  ~ has_keyword allCategoryWords (colorText "Lunch with Sam" None) /\
  suggestColorId "Lunch with Sam" None = "1".
Proof.
  assert (H : ~ has_keyword allCategoryWords (colorText "Lunch with Sam" None)).
  { apply matches_false; reflexivity. }
  split; [exact H|].
  exact (proj2 (proj2 (proj2 suggestColorId_documented_examples))
           "Lunch with Sam" None H).
Defined.

Lemma colorOfText_range (text : string) : In (colorOfText text) colorIds.
Proof.
  unfold colorOfText, colorIds.
  repeat match goal with
         | |- context [if ?b then _ else _] => destruct b
         end; simpl; tauto.
Qed.

(** ** The ordering driver: what the operations leave untouched *)

Section DriverFacts.

Variable w : World.
Variables TARGET_URL OUT_DIR : string.

Lemma same_session_refl s : same_session s s.
Proof. now unfold same_session. Qed.

Lemma same_session_trans s1 s2 s3 :
  same_session s1 s2 -> same_session s2 s3 -> same_session s1 s3.
Proof. unfold same_session. intuition congruence. Qed.

Lemma stable_ret {A} (a : A) : Stable (ret a).
Proof. intros s. apply same_session_refl. Qed.

Lemma stable_throw {A} (t : Js.Thrown) : Stable (@throw A t).
Proof. intros s. apply same_session_refl. Qed.

Lemma stable_bind {A B} (m : M A) (k : A -> M B) :
  Stable m -> (forall a, Stable (k a)) -> Stable (bind m k).
Proof.
  intros Hm Hk s. unfold bind. specialize (Hm s).
  destruct (m s) as [[t|a] s1]; simpl in *; [assumption|].
  eapply same_session_trans; [exact Hm | apply Hk].
Qed.

Lemma stable_try {A} (m : M A) (h : Js.Thrown -> M A) :
  Stable m -> (forall t, Stable (h t)) -> Stable (try_catch m h).
Proof.
  intros Hm Hh s. unfold try_catch. specialize (Hm s).
  destruct (m s) as [[t|a] s1]; simpl in *; [|assumption].
  eapply same_session_trans; [exact Hm | apply Hh].
Qed.

Lemma stable_perform (c : Call) : c <> CLaunch -> Stable (perform w c).
Proof.
  intros Hc s. unfold perform, same_session, sessions_created; simpl.
  repeat split. destruct c; try reflexivity. now destruct Hc.
Qed.

Lemma stable_date_now : Stable (date_now w).
Proof. intros s. apply same_session_refl. Qed.

Lemma stable_get_page : Stable get_page.
Proof. intros s. apply same_session_refl. Qed.

Lemma stable_on_page pg method : Stable (on_page pg method).
Proof. destruct pg; [apply stable_ret | apply stable_throw]. Qed.

Ltac stable_step :=
  first
    [ assumption
    | apply stable_ret
    | apply stable_throw
    | apply stable_date_now
    | apply stable_get_page
    | apply stable_on_page
    | apply stable_perform; discriminate
    | apply stable_bind; [|intros ?]
    | apply stable_try; [|intros ?]
    | match goal with
      | |- Stable (match ?x with _ => _ end) => destruct x
      end ].

Ltac stable := repeat stable_step.

Lemma stable_takeScreenshot pg tag : Stable (takeScreenshot w OUT_DIR pg tag).
Proof. unfold takeScreenshot. stable. Qed.

Lemma stable_firstNonEmpty pg selectors : Stable (firstNonEmpty w pg selectors).
Proof. induction selectors as [|sel rest IH]; simpl; stable. Qed.

Lemma stable_searchItems menuItems wanted : Stable (searchItems w menuItems wanted).
Proof. induction menuItems as [|item rest IH]; simpl; stable. Qed.

Lemma stable_findAndClickItem pg wanted : Stable (findAndClickItem w pg wanted).
Proof.
  unfold findAndClickItem. apply stable_bind; [apply stable_firstNonEmpty|].
  intros [|item rest]; [apply stable_ret | apply stable_searchItems].
Qed.

Lemma stable_clickFirstFound p selectors : Stable (clickFirstFound w p selectors).
Proof. induction selectors as [|sel rest IH]; simpl; stable. Qed.

Lemma stable_fillAddressForm pg : Stable (fillAddressForm w pg).
Proof.
  pose proof (stable_clickFirstFound) as Hc.
  unfold fillAddressForm. stable; apply Hc.
Qed.

Lemma stable_handleOrderModal pg : Stable (handleOrderModal w pg).
Proof.
  pose proof (stable_clickFirstFound) as Hc.
  pose proof (stable_fillAddressForm pg) as Hf.
  unfold handleOrderModal. stable; apply Hc.
Qed.

Lemma stable_collectItems menuItems : Stable (collectItems w menuItems).
Proof. induction menuItems as [|item rest IH]; simpl; stable. Qed.

Lemma stable_getMenuItems pg : Stable (getMenuItems w pg).
Proof.
  unfold getMenuItems. apply stable_bind; [apply stable_firstNonEmpty|].
  intros items. apply stable_collectItems.
Qed.

Lemma stable_preserves {A} (m : M A) : Stable m -> Preserves m.
Proof.
  intros Hm s Hs. destruct (Hm s) as [Hb [_ Hn]].
  unfold session_inv in *. now rewrite Hb, Hn.
Qed.

Lemma preserves_bind {A B} (m : M A) (k : A -> M B) :
  Preserves m -> (forall a, Preserves (k a)) -> Preserves (bind m k).
Proof.
  intros Hm Hk s Hs. unfold bind. specialize (Hm s Hs).
  destruct (m s) as [[t|a] s1]; simpl in *; [assumption | now apply Hk].
Qed.

Lemma preserves_try {A} (m : M A) (h : Js.Thrown -> M A) :
  Preserves m -> (forall t, Preserves (h t)) -> Preserves (try_catch m h).
Proof.
  intros Hm Hh s Hs. unfold try_catch. specialize (Hm s Hs).
  destruct (m s) as [[t|a] s1]; simpl in *; [now apply Hh | assumption].
Qed.

(** With a session at hand, [initBrowser] does nothing at all. *)
Lemma initBrowser_reuses (s : DriverState) (b : Browser) :
  browser s = Some b -> initBrowser w TARGET_URL s = (inr tt, s).
Proof. intros Hb. unfold initBrowser, bind, get_browser. now rewrite Hb. Qed.

Lemma preserves_initBrowser : Preserves (initBrowser w TARGET_URL).
Proof.
  intros s Hs. destruct (browser s) as [b|] eqn:Hb.
  - now rewrite (initBrowser_reuses s b Hb).
  - unfold session_inv in Hs. rewrite Hb in Hs.
    unfold initBrowser, bind, get_browser, set_browser, set_page, perform, ret.
    rewrite Hb.
    unfold session_inv, sessions_created in *.
    destruct (respond w (tick s) CLaunch) as [t|b]; simpl; [now rewrite Hb|].
    repeat match goal with
           | |- context [respond w ?t ?c] =>
               destruct (respond w t c); simpl
           end; rewrite Hs; lia.
Qed.

Lemma preserves_orderFoodItem wanted qty cust :
  Preserves (orderFoodItem w TARGET_URL OUT_DIR wanted qty cust).
Proof.
  unfold orderFoodItem.
  apply preserves_bind; [apply stable_preserves, stable_perform; discriminate|].
  intros _. apply preserves_bind; [apply preserves_initBrowser|].
  intros _. apply stable_preserves.
  pose proof stable_findAndClickItem as Hf.
  pose proof stable_handleOrderModal as Hm.
  pose proof stable_takeScreenshot as Ht.
  apply stable_try; [|intros e].
  - apply stable_bind; [apply stable_get_page | intros pg].
    apply stable_bind; [apply Hf | intros result].
    apply stable_bind; [destruct (find_success result); [apply Hm | apply stable_ret]|].
    intros _. apply stable_bind; [apply Ht | intros shot; apply stable_ret].
  - apply stable_bind; [apply stable_get_page | intros pg].
    apply stable_bind; [apply Ht | intros shot; apply stable_ret].
Qed.

Lemma preserves_browseMenu cat search :
  Preserves (browseMenu w TARGET_URL cat search).
Proof.
  unfold browseMenu.
  apply preserves_bind; [apply preserves_initBrowser|].
  intros _. apply stable_preserves.
  apply stable_try; [|intros e; apply stable_ret].
  apply stable_bind; [apply stable_get_page | intros pg].
  apply stable_bind; [apply stable_getMenuItems | intros menuItems; apply stable_ret].
Qed.

Lemma run_op_inv (op : Op) (s : DriverState) :
  session_inv s -> session_inv (run_op w TARGET_URL OUT_DIR op s).
Proof.
  destruct op; simpl; intros Hs.
  - now apply preserves_orderFoodItem.
  - now apply preserves_browseMenu.
  - exact Hs.
  - exact Hs.
  - exact Hs.
Qed.

Lemma run_ops_inv (ops : list Op) (s : DriverState) :
  session_inv s -> session_inv (run_ops w TARGET_URL OUT_DIR ops s).
Proof.
  revert s; induction ops as [|op ops IH]; intros s Hs; simpl; [exact Hs|].
  apply IH. now apply run_op_inv.
Qed.

Lemma session_inv_bound (s : DriverState) : session_inv s -> sessions_created s <= 1.
Proof. unfold session_inv. destruct (browser s); lia. Qed.

End DriverFacts.

(** ** The ordering driver: failure semantics *)

Section OrderingFacts.

Variable w : World.
Variables TARGET_URL OUT_DIR : string.
Variable stringify : Js.Json -> string.

Lemma try_catch_unit_total (m : M unit) (s : DriverState) :
  exists s', try_catch m (fun _ => ret tt) s = (inr tt, s').
Proof.
  unfold try_catch. destruct (m s) as [[t|[]] s1]; eexists; reflexivity.
Qed.


Lemma fillAddressForm_total (pg : option Page) (s : DriverState) :
  exists s', fillAddressForm w pg s = (inr tt, s').
Proof. apply try_catch_unit_total. Qed.





Lemma isItemMatch_empty (searchTerm : string) :
  isItemMatch EmptyString searchTerm = true.
Proof.
  unfold isItemMatch. simpl Js.toLowerCase.
  now rewrite includes_empty, orb_true_r.
Qed.

Lemma or_default_falsy (a b : option string) (d : string) :
  Js.truthy a = false -> Js.truthy b = false ->
  Js.or_default (Js.or_else a b) d = d.
Proof.
  unfold Js.or_else. intros -> Hb.
  destruct b as [[|c s]|]; [reflexivity | discriminate | reflexivity].
Qed.




Lemma initBrowser_sets_browser (s s1 : DriverState) :
  initBrowser w TARGET_URL s = (inr tt, s1) -> exists b, browser s1 = Some b.
Proof.
  destruct (browser s) as [b|] eqn:Hb.
  - rewrite (initBrowser_reuses w TARGET_URL s b Hb). intros H.
    apply (f_equal snd) in H. simpl in H. subst s1. eauto.
  - unfold initBrowser, bind, get_browser, set_browser, set_page, perform, ret.
    rewrite Hb.
    destruct (respond w (tick s) CLaunch) as [t|b]; [discriminate|].
    cbn [tick browser page trace].
    repeat match goal with
           | |- context [respond w ?t ?c] =>
               destruct (respond w t c); cbn [tick browser page trace];
               try discriminate
           end.
    intros H. apply (f_equal snd) in H. simpl in H. subst s1. simpl. eauto.
Qed.

(** C8. With a browser session at hand, [initBrowser] launches
    nothing, navigates nowhere and leaves the state as it is; so a
    second call after a first one is a no-op, and whatever sequence of
    public operations runs from the initial state, at most one browser
    session is created. *)
Theorem initBrowser_idempotent :
  (forall (s : DriverState) (b : Browser),
     browser s = Some b -> initBrowser w TARGET_URL s = (inr tt, s)) /\
  (forall s s1 : DriverState,
     initBrowser w TARGET_URL s = (inr tt, s1) ->
     initBrowser w TARGET_URL s1 = (inr tt, s1)) /\
  (forall ops : list Op,
     sessions_created (run_ops w TARGET_URL OUT_DIR ops initialState) <= 1).
Proof.
  split; [|split].
  - apply initBrowser_reuses.
  - intros s s1 H. destruct (initBrowser_sets_browser s s1 H) as [b Hb].
    now apply (initBrowser_reuses w TARGET_URL s1 b).
  - intros ops. apply session_inv_bound, run_ops_inv. reflexivity.
Qed.

(** C9. An empty candidate text matches every search term; hence in
    [findAndClickItem] an element with neither an [item-name] attribute
    nor any text is taken for the requested item, whatever its name:
    it is clicked and reported as found. *)
Theorem empty_candidate_matches_any_item :
  (forall searchTerm : string, isItemMatch EmptyString searchTerm = true) /\
  (forall (nm text : option string) (wanted : string),
     Js.truthy nm = false -> Js.truthy text = false ->
     isItemMatch (Js.or_default (Js.or_else nm text) EmptyString) wanted = true) /\
  (forall (p : Page) (wanted : string) (item : Locator) (rest : list Locator)
          (s : DriverState),
     respond w (tick s) (CLocatorAll p "new-menufy-item-card") = inr (item :: rest) ->
     respond w (S (tick s)) (CGetAttribute item "item-name") = inr None ->
     respond w (S (S (tick s))) (CTextContent item) = inr None ->
     respond w (S (S (S (tick s)))) (CClick item) = inr tt ->
     exists s',
       findAndClickItem w (Some p) wanted s
         = (inr {| find_success := true; find_found := true;
                   find_error := None;
                   find_clickedElement := Some "Unknown" |}, s') /\
       trace s' = (CClick item, true) :: (CTextContent item, true)
                    :: (CGetAttribute item "item-name", true)
                    :: (CLocatorAll p "new-menufy-item-card", true) :: trace s).
Proof.
  split; [exact isItemMatch_empty | split].
  - intros nm text wanted Hn Ht.
    rewrite (or_default_falsy nm text EmptyString Hn Ht). apply isItemMatch_empty.
  - intros p wanted item rest s Hall Hname Htext Hclick.
    unfold findAndClickItem, itemSelectors.
    cbn [firstNonEmpty]. unfold bind, on_page, ret, perform.
    cbn [tick browser page trace]. rewrite Hall.
    cbn [searchItems tick browser page trace resolved].
    unfold bind, perform, try_catch, ret.
    cbn [tick browser page trace resolved]. rewrite Hname.
    cbn [tick browser page trace resolved]. rewrite Htext.
    cbn [tick browser page trace resolved Js.or_else Js.truthy Js.or_default].
    rewrite isItemMatch_empty.
    cbn [tick browser page trace resolved]. rewrite Hclick.
    eexists; split; reflexivity.
Qed.

End OrderingFacts.



Lemma initBrowser_idempotent_witness :
  browser (snd (initBrowser quietWorld sampleUrl initialState)) = Some 1 /\
  initBrowser quietWorld sampleUrl (snd (initBrowser quietWorld sampleUrl initialState))
    = (inr tt, snd (initBrowser quietWorld sampleUrl initialState)).
Proof.
  split; [reflexivity|].
  exact (proj1 (initBrowser_idempotent quietWorld sampleUrl sampleOutDir)
           (snd (initBrowser quietWorld sampleUrl initialState)) 1 eq_refl).
Defined.

Lemma empty_candidate_matches_any_item_witness :
  exists s',
    findAndClickItem blankCardWorld (Some 1) "bacon sandwich" initialState
      = (inr {| find_success := true; find_found := true;
                find_error := None;
                find_clickedElement := Some "Unknown" |}, s').
Proof.
  destruct (proj2 (proj2 (empty_candidate_matches_any_item blankCardWorld))
              1 "bacon sandwich" (Handle 0) [] initialState
              eq_refl eq_refl eq_refl eq_refl) as [s' [Hrun _]].
  exists s'. exact Hrun.
Defined.

(** ** The cart and checkout stubs *)

(** C3 (as amended). None of the three stubs raises or touches the
    state. [clearCart] and [proceedToCheckout] return [success = false]
    with a not-implemented message. [getCartContents] returns a cart
    whose single item is the not-implemented notice, with total "0.00"
    and no items counted: an object without a [success] field. *)
Theorem cart_stubs_report_not_implemented (s : DriverState) :
  (exists cart,
     getCartContents s = (inr cart, s) /\
     items cart = ["Cart functionality not implemented yet"] /\
     total cart = "0.00" /\ itemCount cart = 0%Z /\
     Js.field "success" (CartContents_json cart) = None) /\
  (exists r,
     clearCart s = (inr r, s) /\
     Js.field "success" (ClearResult_json r) = Some (Js.JBool false) /\
     Js.field "message" (ClearResult_json r)
       = Some (Js.JStr "Cart clearing not implemented yet")) /\
  (exists r,
     proceedToCheckout s = (inr r, s) /\
     Js.field "success" (CheckoutResult_json r) = Some (Js.JBool false) /\
     Js.field "message" (CheckoutResult_json r)
       = Some (Js.JStr "Checkout not implemented yet")).
Proof.
  split; [|split]; eexists; repeat split.
Qed.

(** C3, as stated, fails for [get_cart]: its result has neither a
    [success] flag nor a [message]. *)
Lemma getCartContents_has_no_success_flag :
  ~ (forall s : DriverState,
       exists cart s',
         getCartContents s = (inr cart, s') /\
         Js.field "success" (CartContents_json cart) = Some (Js.JBool false)).
Proof.
  intros H. destruct (H initialState) as [cart [s' [Hrun Hflag]]].
  injection Hrun as <- _. discriminate Hflag.
Qed.

(** ** The Calendar/Gmail wrappers: requests *)

Lemma set_if_truthy_other (key k : string) (v : option string)
    (obj : gmap string Js.Json) :
  key <> k -> set_if_truthy key v obj !! k = obj !! k.
Proof.
  intros Hne. unfold set_if_truthy.
  destruct v as [[|c s]|]; try reflexivity. now rewrite lookup_insert_ne.
Qed.

Lemma set_if_truthy_absent (key : string) (obj : gmap string Js.Json) :
  set_if_truthy key None obj = obj.
Proof. reflexivity. Qed.

Lemma set_attendees_other (k : string) (v : option (list string))
    (obj : gmap string Js.Json) :
  "attendees" <> k -> set_attendees v obj !! k = obj !! k.
Proof.
  intros Hne. unfold set_attendees.
  destruct v as [[|e es]|]; try reflexivity. now rewrite lookup_insert_ne.
Qed.

Lemma eventObject_colorId (a : CreateEventArgs) (recurrence : option string) :
  eventObject a recurrence !! "colorId" = Some (Js.JStr (chosenColorId a)).
Proof.
  unfold eventObject.
  rewrite set_attendees_other by discriminate.
  rewrite !set_if_truthy_other by discriminate.
  apply lookup_insert_eq.
Qed.

Lemma chosenColorId_suggested (a : CreateEventArgs) :
  Js.truthy (ce_colorId a) = false ->
  chosenColorId a = suggestColorId (ce_summary a) (ce_description a).
Proof.
  unfold chosenColorId. destruct (ce_colorId a) as [[|c s]|]; simpl;
    [reflexivity | discriminate | reflexivity].
Qed.

Lemma sent_create_event remote fmt (a : CreateEventArgs) (req : Request) :
  In req (snd (create_event remote fmt a)) ->
  req = ReqEventsInsert (ce_calendarId a) (eventObject a None) "all".
Proof.
  unfold create_event, gbind, authenticate, glift, call, gret.
  destruct (getAuth remote) as [t|[]]; simpl; [tauto|].
  destruct (answer remote _) as [t|data]; simpl; [intuition congruence|].
  destruct (fmt data) as [t|text]; simpl; intuition congruence.
Qed.

Lemma sent_create_recurring_event remote fmt (a : CreateEventArgs)
    (rule : string) (req : Request) :
  In req (snd (create_recurring_event remote fmt a rule)) ->
  req = ReqEventsInsert (ce_calendarId a) (eventObject a (Some rule)) "all".
Proof.
  unfold create_recurring_event, gbind, gtry, authenticate, glift, call, gret.
  destruct (getAuth remote) as [t|[]]; simpl; [tauto|].
  destruct (answer remote _) as [t|data]; simpl; [intuition congruence|].
  destruct (fmt data) as [t|text]; simpl; intuition congruence.
Qed.

Lemma sent_list_events remote fmt (a : ListEventsArgs) (req : Request) :
  In req (snd (list_events remote fmt a)) ->
  req = ReqEventsList (listEventsParams a).
Proof.
  unfold list_events, gbind, gtry, authenticate, glift, call, gret.
  destruct (getAuth remote) as [t|[]]; simpl; [tauto|].
  destruct (answer remote _) as [t|data]; simpl; [intuition congruence|].
  destruct (fmt data) as [t|text]; simpl; intuition congruence.
Qed.

(** C7. When [timeMin] (respectively [timeMax]) is omitted, the
    parameter object of the upstream [calendar.events.list] call has no
    [timeMin] (respectively [timeMax]) key; [calendarId], [maxResults],
    [singleEvents] and [orderBy] are always there. That object is the
    one the handler sends, in its only request. *)
Theorem list_events_omits_absent_bounds (a : ListEventsArgs) :
  (le_timeMin a = None -> listEventsParams a !! "timeMin" = None) /\
  (le_timeMax a = None -> listEventsParams a !! "timeMax" = None) /\
  listEventsParams a !! "calendarId" = Some (Js.JStr (le_calendarId a)) /\
  listEventsParams a !! "maxResults"
    = Some (Js.JNum (default 10%Z (le_maxResults a))) /\
  listEventsParams a !! "singleEvents"
    = Some (Js.JBool (default true (le_singleEvents a))) /\
  listEventsParams a !! "orderBy"
    = Some (Js.JStr (OrderBy_string (default startTime (le_orderBy a)))) /\
  (forall remote fmt,
     getAuth remote = inr tt ->
     snd (list_events remote fmt a) = [ReqEventsList (listEventsParams a)]) /\
  (forall remote fmt req,
     In req (snd (list_events remote fmt a)) ->
     req = ReqEventsList (listEventsParams a)).
Proof.
  unfold listEventsParams.
  repeat split.
  - intros ->. rewrite set_if_truthy_other by discriminate.
    rewrite set_if_truthy_absent. now rewrite !lookup_insert_ne by discriminate.
  - intros ->. rewrite set_if_truthy_absent.
    rewrite set_if_truthy_other by discriminate.
    now rewrite !lookup_insert_ne by discriminate.
  - rewrite !set_if_truthy_other by discriminate.
    rewrite !lookup_insert_ne by discriminate. apply lookup_insert_eq.
  - rewrite !set_if_truthy_other by discriminate.
    rewrite !lookup_insert_ne by discriminate. apply lookup_insert_eq.
  - rewrite !set_if_truthy_other by discriminate.
    rewrite !lookup_insert_ne by discriminate. apply lookup_insert_eq.
  - rewrite !set_if_truthy_other by discriminate. apply lookup_insert_eq.
  - intros remote fmt Hauth.
    unfold list_events, gbind, gtry, authenticate, glift, call, gret.
    rewrite Hauth. simpl.
    destruct (answer remote _) as [t|data]; simpl; [reflexivity|].
    destruct (fmt data) as [t|text]; reflexivity.
  - intros remote fmt req. apply sent_list_events.
Qed.

Lemma list_events_omits_absent_bounds_witness :
  le_timeMin primaryEventsArgs = None /\
  listEventsParams primaryEventsArgs !! "timeMin" = None /\
  le_timeMax primaryEventsArgs = None /\
  listEventsParams primaryEventsArgs !! "timeMax" = None /\
  snd (list_events acceptingRemote plainText primaryEventsArgs)
    = [ReqEventsList (listEventsParams primaryEventsArgs)].
Proof.
  pose proof (list_events_omits_absent_bounds primaryEventsArgs)
    as [Hmin [Hmax [_ [_ [_ [_ [Hsent _]]]]]]].
  split; [reflexivity|]. split; [exact (Hmin eq_refl)|].
  split; [reflexivity|]. split; [exact (Hmax eq_refl)|].
  exact (Hsent acceptingRemote plainText eq_refl).
Defined.

(** ** The Calendar/Gmail wrappers: colours of created events *)

Lemma chosenColorId_supplied (a : CreateEventArgs) (c : string) :
  ce_colorId a = Some c -> c <> EmptyString -> chosenColorId a = c.
Proof.
  unfold chosenColorId. intros -> Hc.
  destruct c as [|x c']; [contradiction | reflexivity].
Qed.

Lemma create_event_sends remote fmt (a : CreateEventArgs) :
  getAuth remote = inr tt ->
  snd (create_event remote fmt a)
    = [ReqEventsInsert (ce_calendarId a) (eventObject a None) "all"].
Proof.
  intros Hauth. unfold create_event, gbind, authenticate, glift, call, gret.
  rewrite Hauth. simpl.
  destruct (answer remote _) as [t|data]; simpl; [reflexivity|].
  destruct (fmt data) as [t|text]; reflexivity.
Qed.

Lemma create_recurring_event_sends remote fmt (a : CreateEventArgs) (rule : string) :
  getAuth remote = inr tt ->
  snd (create_recurring_event remote fmt a rule)
    = [ReqEventsInsert (ce_calendarId a) (eventObject a (Some rule)) "all"].
Proof.
  intros Hauth.
  unfold create_recurring_event, gbind, gtry, authenticate, glift, call, gret.
  rewrite Hauth. simpl.
  destruct (answer remote _) as [t|data]; simpl; [reflexivity|].
  destruct (fmt data) as [t|text]; reflexivity.
Qed.

(** C10 (as amended). [suggestColorId] always answers one of the ids
    "1" to "11"; so when the caller supplies no (or an empty) colour id,
    the event sent by [create_event] or [create_recurring_event]
    carries a colour id in that range. A non-empty colour id supplied
    by the caller is the one the event carries, whatever it is: no
    range check is made. Once authenticated, each of the two handlers
    sends exactly one request, the insertion of that event. *)
Theorem suggested_colorId_in_range :
  (forall (summary : string) (description : option string),
     In (suggestColorId summary description) colorIds) /\
  (forall (a : CreateEventArgs) (recurrence : option string),
     Js.truthy (ce_colorId a) = false ->
     exists c, eventObject a recurrence !! "colorId" = Some (Js.JStr c) /\
               In c colorIds) /\
  (forall remote fmt (a : CreateEventArgs) (req : Request),
     Js.truthy (ce_colorId a) = false ->
     In req (snd (create_event remote fmt a)) ->
     exists cal body upd c,
       req = ReqEventsInsert cal body upd /\
       body !! "colorId" = Some (Js.JStr c) /\ In c colorIds) /\
  (forall remote fmt (a : CreateEventArgs) (rule : string) (req : Request),
     Js.truthy (ce_colorId a) = false ->
     In req (snd (create_recurring_event remote fmt a rule)) ->
     exists cal body upd c,
       req = ReqEventsInsert cal body upd /\
       body !! "colorId" = Some (Js.JStr c) /\ In c colorIds) /\
  (forall (a : CreateEventArgs) (recurrence : option string) (c : string),
     ce_colorId a = Some c -> c <> EmptyString ->
     eventObject a recurrence !! "colorId" = Some (Js.JStr c)) /\
  (forall remote fmt (a : CreateEventArgs) (c : string) (req : Request),
     ce_colorId a = Some c -> c <> EmptyString ->
     In req (snd (create_event remote fmt a)) ->
     exists cal body upd,
       req = ReqEventsInsert cal body upd /\
       body !! "colorId" = Some (Js.JStr c)) /\
  (forall remote fmt (a : CreateEventArgs) (rule c : string) (req : Request),
     ce_colorId a = Some c -> c <> EmptyString ->
     In req (snd (create_recurring_event remote fmt a rule)) ->
     exists cal body upd,
       req = ReqEventsInsert cal body upd /\
       body !! "colorId" = Some (Js.JStr c)) /\
  (forall remote fmt (a : CreateEventArgs),
     getAuth remote = inr tt ->
     snd (create_event remote fmt a)
       = [ReqEventsInsert (ce_calendarId a) (eventObject a None) "all"]) /\
  (forall remote fmt (a : CreateEventArgs) (rule : string),
     getAuth remote = inr tt ->
     snd (create_recurring_event remote fmt a rule)
       = [ReqEventsInsert (ce_calendarId a) (eventObject a (Some rule)) "all"]).
Proof.
  assert (Range : forall summary description,
            In (suggestColorId summary description) colorIds).
  { intros summary description. apply colorOfText_range. }
  assert (Obj : forall a recurrence, Js.truthy (ce_colorId a) = false ->
            exists c, eventObject a recurrence !! "colorId" = Some (Js.JStr c) /\
                      In c colorIds).
  { intros a recurrence Hnone. exists (chosenColorId a).
    split; [apply eventObject_colorId|].
    rewrite (chosenColorId_suggested a Hnone). apply Range. }
  assert (Through : forall a recurrence c,
            ce_colorId a = Some c -> c <> EmptyString ->
            eventObject a recurrence !! "colorId" = Some (Js.JStr c)).
  { intros a recurrence c Hsome Hc.
    rewrite eventObject_colorId. now rewrite (chosenColorId_supplied a c Hsome Hc). }
  split; [exact Range | split; [exact Obj | split; [|split; [|split; [exact Through|
    split; [|split; [|split]]]]]]].
  - intros remote fmt a req Hnone Hin.
    apply sent_create_event in Hin. subst req.
    destruct (Obj a None Hnone) as [c Hc]. now eexists _, _, _, c.
  - intros remote fmt a rule req Hnone Hin.
    apply sent_create_recurring_event in Hin. subst req.
    destruct (Obj a (Some rule) Hnone) as [c Hc]. now eexists _, _, _, c.
  - intros remote fmt a c req Hsome Hc Hin.
    apply sent_create_event in Hin. subst req.
    eexists _, _, _. split; [reflexivity|]. now apply Through.
  - intros remote fmt a rule c req Hsome Hc Hin.
    apply sent_create_recurring_event in Hin. subst req.
    eexists _, _, _. split; [reflexivity|]. now apply Through.
  - apply create_event_sends.
  - apply create_recurring_event_sends.
Qed.

Lemma suggested_colorId_in_range_witness :
  (Js.truthy (ce_colorId (standupArgs None)) = false /\
   exists c, eventObject (standupArgs None) None !! "colorId" = Some (Js.JStr c) /\
             In c colorIds) /\
  eventObject (standupArgs (Some "4")) None !! "colorId" = Some (Js.JStr "4") /\
  snd (create_event acceptingRemote plainText (standupArgs (Some "4")))
    = [ReqEventsInsert "primary" (eventObject (standupArgs (Some "4")) None) "all"].
Proof.
  pose proof suggested_colorId_in_range
    as (_ & Hobj & _ & _ & Hthrough & _ & _ & Hsent & _).
  split; [|split].
  - split; [reflexivity | exact (Hobj (standupArgs None) None eq_refl)].
  - apply (Hthrough (standupArgs (Some "4")) None "4" eq_refl). discriminate.
  - exact (Hsent acceptingRemote plainText (standupArgs (Some "4")) eq_refl).
Defined.

(** C10, as stated, fails: a colour id supplied by the caller is passed
    through as it is, in range or not. *)
Lemma create_event_passes_colorId_through :
  exists body,
    snd (create_event acceptingRemote plainText (standupArgs (Some "99")))
      = [ReqEventsInsert "primary" body "all"] /\
    body !! "colorId" = Some (Js.JStr "99") /\
    ~ In "99" colorIds.
Proof.
  eexists. split; [reflexivity|]. split.
  - apply eventObject_colorId.
  - simpl. intuition discriminate.
Qed.

(** ** The Calendar/Gmail wrappers: errors of the remote service *)

Lemma gtry_total {A} (m : G A) (h : Js.Thrown -> A) :
  exists a, fst (gtry m (fun err => gret (h err))) = inr a.
Proof.
  unfold gtry, gret. destruct m as [[t|a] sent]; simpl; eauto.
Qed.

(** The handlers that wrap the remote call in [try]/[catch] answer
    with a text once authentication has gone through. *)
Lemma guarded_handlers_answer remote fmt :
  getAuth remote = inr tt ->
  (forall a rule, exists content,
     fst (create_recurring_event remote fmt a rule) = inr content) /\
  (forall a, exists content, fst (list_events remote fmt a) = inr content) /\
  (forall a, exists content, fst (list_emails remote fmt a) = inr content) /\
  (forall a, exists content, fst (get_email remote fmt a) = inr content) /\
  (forall a b64, exists content, fst (send_email remote fmt b64 a) = inr content) /\
  (forall a, exists content, fst (search_emails remote fmt a) = inr content).
Proof.
  intros Hauth.
  repeat split; intros;
    unfold create_recurring_event, list_events, list_emails, get_email,
      send_email, search_emails, authenticate, glift;
    rewrite Hauth; unfold gbind at 1;
    match goal with
    | |- context [gtry ?m (fun err => gret (@?h err))] =>
        destruct (gtry_total m h) as [content Hc];
        destruct (gtry m (fun err => gret (h err))) as [r sent];
        simpl in *; exists content; exact Hc
    end.
Qed.

(** The [catch] of [list_calendars] reads [err.response.data]: an error
    that carries no response makes the handler throw a [TypeError]. *)
Lemma list_calendars_throws_without_response fmt :
  fst (list_calendars unreachableRemote fmt)
    = inl (Js.TypeError_read "undefined" "data").
Proof. reflexivity. Qed.

(** C2 at the failing input: [create_event] has no [try]/[catch] around
    the insertion, so the remote error is thrown by the handler, whereas
    [create_recurring_event] returns it as a text. *)
Theorem create_event_lets_remote_error_escape :
  forall (err : Js.Thrown) fmt (a : CreateEventArgs) (rule : string),
    create_event (insertFailsRemote err) fmt a
      = (inl err, [ReqEventsInsert (ce_calendarId a) (eventObject a None) "all"]) /\
    create_recurring_event (insertFailsRemote err) fmt a rule
      = (inr ["Error creating recurring event: " +:+ Js.message_or_self err],
         [ReqEventsInsert (ce_calendarId a) (eventObject a (Some rule)) "all"]).
Proof. intros err fmt a rule. split; reflexivity. Qed.

Example create_event_not_found :
  fst (create_event (insertFailsRemote notFound) plainText (standupArgs None))
    = inl notFound /\
  fst (create_recurring_event (insertFailsRemote notFound) plainText
         (standupArgs None) "FREQ=WEEKLY;COUNT=10")
    = inr ["Error creating recurring event: Not Found"].
Proof. split; reflexivity. Qed.

(** ** Sample runs *)

Example suggest_getaway : suggestColorId "Weekend getaway trip" None = "7".
Proof. reflexivity. Qed.

Example suggest_deadline : suggestColorId "Project deadline" None = "8".
Proof. reflexivity. Qed.

Example suggest_workshop :
  suggestColorId "Pottery" (Some "Evening WORKSHOP downtown") = "6".
Proof. reflexivity. Qed.

Example match_substring : isItemMatch "Bacon Sandwich Deluxe" "bacon sandwich" = true.
Proof. reflexivity. Qed.

Example match_short_term : isItemMatch "Iced Coffee" "ice" = true.
Proof. reflexivity. Qed.

(** On a page without any menu element the order fails with a
    screenshot of the page. *)
Example order_on_empty_menu :
  fst (orderFoodItem quietWorld sampleUrl sampleOutDir "coffee" 2 None initialState)
    = inr {| success := false;
             itemName := "coffee";
             quantity := 2;
             found := false;
             screenshot := "/srv/ada/orders/item-clicked-1700000000000.png";
             error := Some "No menu items found on the page";
             clickedElement := None |}.
Proof. reflexivity. Qed.

(** The handler of [order_food_item] turns the navigation timeout into
    a text. *)
Example order_food_item_reports_timeout :
  fst (order_food_item navigationTimeoutWorld sampleUrl sampleOutDir (fun _ => "{}")
         {| arg_itemName := "coffee"; arg_quantity := None;
            arg_customizations := None |} initialState)
    = inr ["Error ordering coffee: page.goto: Timeout 30000ms exceeded."].
Proof. reflexivity. Qed.

(** After a launch whose navigation failed, the session is kept and no
    second browser is launched by the next order. *)
Example one_session_after_failed_navigation :
  sessions_created
    (run_ops navigationTimeoutWorld sampleUrl sampleOutDir
       [OpOrder "coffee" 1 None; OpBrowse None None; OpOrder "tea" 1 None]
       initialState) = 1.
Proof. reflexivity. Qed.

(** * Further properties of the code *)

(** ** The item matcher, as a relation *)

Lemma lower_char_idempotent (c : ascii) :
  Js.lower_char (Js.lower_char c) = Js.lower_char c.
Proof.
  destruct c as [[] [] [] [] [] [] [] []]; reflexivity.
Qed.

Lemma toLowerCase_idempotent (s : string) :
  Js.toLowerCase (Js.toLowerCase s) = Js.toLowerCase s.
Proof.
  induction s as [|c s IH]; simpl; [reflexivity|].
  now rewrite lower_char_idempotent, IH.
Qed.

Lemma toLowerCase_append (a b : string) :
  Js.toLowerCase (a +:+ b) = Js.toLowerCase a +:+ Js.toLowerCase b.
Proof. induction a as [|c a IH]; simpl; [reflexivity | now rewrite IH]. Qed.

Lemma includes_refl (s : string) : Js.includes s s = true.
Proof.
  apply includes_spec. exists EmptyString, EmptyString.
  simpl. now rewrite append_empty_r.
Qed.

(** X1. The item match is reflexive, symmetric and blind to (ASCII)
    case, but it is not transitive: "ice" matches "Iced Coffee", which
    matches "coffee", yet "ice" does not match "coffee". *)
Theorem isItemMatch_relation :
  (forall a : string, isItemMatch a a = true) /\
  (forall a b : string, isItemMatch a b = isItemMatch b a) /\
  (forall a b : string,
     isItemMatch (Js.toLowerCase a) b = isItemMatch a b /\
     isItemMatch a (Js.toLowerCase b) = isItemMatch a b) /\
  ~ (forall a b c : string,
       isItemMatch a b = true -> isItemMatch b c = true -> isItemMatch a c = true).
Proof.
  split; [|split; [|split]].
  - intros a. unfold isItemMatch. now rewrite includes_refl.
  - intros a b. unfold isItemMatch. apply orb_comm.
  - intros a b. unfold isItemMatch. now rewrite !toLowerCase_idempotent.
  - intros H. specialize (H "ice" "Iced Coffee" "coffee" eq_refl eq_refl).
    discriminate H.
Qed.

(** ** The colour heuristic, category by category *)

(** Case analysis on one pattern of [colorOfText], read as the
    presence or absence of a keyword. *)
Ltac keyword_step text :=
  match goal with
  | |- context [if Js.matches text ?ws then _ else _] =>
      let E := fresh "E" in
      destruct (Js.matches text ws) eqn:E;
      [apply (matches_spec ws text eq_refl) in E
      |apply (matches_false ws text eq_refl) in E];
      cbv iota
  end.

Ltac keyword_cases text := repeat keyword_step text.

Lemma or_default_lower (d : option string) :
  Js.or_default (option_map Js.toLowerCase d) EmptyString
  = Js.toLowerCase (Js.or_default d EmptyString).
Proof. destruct d as [[|c s]|]; reflexivity. Qed.

(** X2. The suggestion does not depend on the (ASCII) case of the
    summary or of the description. *)
Theorem suggestColorId_case_insensitive (summary : string) (description : option string) :
  suggestColorId (Js.toLowerCase summary) (option_map Js.toLowerCase description)
  = suggestColorId summary description.
Proof.
  unfold suggestColorId, colorText. f_equal.
  rewrite or_default_lower, !toLowerCase_append, !toLowerCase_idempotent.
  reflexivity.
Qed.

(** X3. Below the work category the categories are tried in the order
    social, health, learning, travel, each with its own sub-rules: a
    social text gets "11" (date-like), else "3" (show-like), else "4";
    a health text gets "2" (medical) or "10"; a learning text gets "6"
    (workshop-like) or "5"; a travel text gets "7". *)
Theorem suggestColorId_category_order (summary : string) (description : option string) :
  ~ has_keyword workWords (colorText summary description) ->
  (has_keyword socialWords (colorText summary description) ->
   (has_keyword socialDateWords (colorText summary description) ->
    suggestColorId summary description = "11") /\
   (~ has_keyword socialDateWords (colorText summary description) ->
    has_keyword socialShowWords (colorText summary description) ->
    suggestColorId summary description = "3") /\
   (~ has_keyword socialDateWords (colorText summary description) ->
    ~ has_keyword socialShowWords (colorText summary description) ->
    suggestColorId summary description = "4")) /\
  (~ has_keyword socialWords (colorText summary description) ->
   has_keyword healthWords (colorText summary description) ->
   (has_keyword healthMedicalWords (colorText summary description) ->
    suggestColorId summary description = "2") /\
   (~ has_keyword healthMedicalWords (colorText summary description) ->
    suggestColorId summary description = "10")) /\
  (~ has_keyword socialWords (colorText summary description) ->
   ~ has_keyword healthWords (colorText summary description) ->
   has_keyword learningWords (colorText summary description) ->
   (has_keyword learningWorkshopWords (colorText summary description) ->
    suggestColorId summary description = "6") /\
   (~ has_keyword learningWorkshopWords (colorText summary description) ->
    suggestColorId summary description = "5")) /\
  (~ has_keyword socialWords (colorText summary description) ->
   ~ has_keyword healthWords (colorText summary description) ->
   ~ has_keyword learningWords (colorText summary description) ->
   has_keyword travelWords (colorText summary description) ->
   suggestColorId summary description = "7").
Proof.
  intros Hwork. unfold suggestColorId.
  set (text := colorText summary description) in *.
  unfold colorOfText.
  rewrite (proj2 (matches_false workWords text workWords_ok) Hwork).
  keyword_cases text; repeat split; intros; try reflexivity; tauto.
Qed.

Lemma suggestColorId_category_order_witness :
  ~ has_keyword workWords (colorText "Doctor appointment" None) /\
  suggestColorId "Doctor appointment" None = "2".
Proof.
  assert (Hwork : ~ has_keyword workWords (colorText "Doctor appointment" None)).
  { apply matches_false; reflexivity. }
  assert (Hsocial : ~ has_keyword socialWords (colorText "Doctor appointment" None)).
  { apply matches_false; reflexivity. }
  assert (Hhealth : has_keyword healthWords (colorText "Doctor appointment" None)).
  { apply matches_spec; reflexivity. }
  assert (Hmed : has_keyword healthMedicalWords (colorText "Doctor appointment" None)).
  { apply matches_spec; reflexivity. }
  split; [exact Hwork|].
  destruct (suggestColorId_category_order "Doctor appointment" None Hwork)
    as [_ [Health _]].
  exact (proj1 (Health Hsocial Hhealth) Hmed).
Defined.

Lemma has_keyword_cons (w : string) (ws : list string) (text : string) :
  has_keyword (w :: ws) text <-> whole_word w text \/ has_keyword ws text.
Proof.
  unfold has_keyword. split.
  - intros [x [[<- | Hin] H]]; eauto.
  - intros [H | [x [Hin H]]]; [exists w | exists x]; simpl; auto.
Qed.

(** X4. Colour "6" is suggested exactly for the texts without any
    work, social or health keyword in which "workshop", "seminar" or
    "training" occurs as a whole word. The alternative "conference" of
    the workshop-like pattern never decides: it is a work keyword. *)
Theorem suggestColorId_tangerine (summary : string) (description : option string) :
  suggestColorId summary description = "6" <->
  ~ has_keyword workWords (colorText summary description) /\
  ~ has_keyword socialWords (colorText summary description) /\
  ~ has_keyword healthWords (colorText summary description) /\
  has_keyword ["workshop"; "seminar"; "training"] (colorText summary description).
Proof.
  unfold suggestColorId.
  set (text := colorText summary description).
  assert (Conf : whole_word "conference" text -> has_keyword workWords text).
  { intros H. exists "conference". split; [simpl; tauto | exact H]. }
  assert (Learn : has_keyword ["workshop"; "seminar"; "training"] text ->
                  has_keyword learningWords text).
  { intros [x [Hin H]]. exists x. split; [|exact H].
    simpl in Hin. simpl. intuition (subst; tauto). }
  assert (Sub : has_keyword learningWorkshopWords text <->
                whole_word "conference" text \/
                has_keyword ["workshop"; "seminar"; "training"] text).
  { unfold learningWorkshopWords. rewrite !has_keyword_cons. tauto. }
  unfold colorOfText.
  keyword_cases text;
    (split; [try discriminate; intros _ | intros [? [? [? ?]]]; try reflexivity]);
    tauto.
Qed.

(** X5. Colour "1" is suggested exactly for the texts in which no
    keyword of any category occurs as a whole word. *)
Theorem suggestColorId_lavender (summary : string) (description : option string) :
  suggestColorId summary description = "1" <->
  ~ has_keyword allCategoryWords (colorText summary description).
Proof.
  unfold suggestColorId, allCategoryWords.
  set (text := colorText summary description).
  rewrite !has_keyword_app. unfold colorOfText.
  keyword_cases text;
    (split; [try discriminate; intros _ | intros ?; try reflexivity]);
    tauto.
Qed.

(** ** The modal flow of the ordering driver *)

Section ModalFlow.

Variable w : World.

Lemma bind_resolved {A B} (m : M A) (k : A -> M B) (s s' : DriverState) (a : A) :
  m s = (inr a, s') -> bind m k s = k a s'.
Proof. intros H. unfold bind. now rewrite H. Qed.

Lemma bind_thrown {A B} (m : M A) (k : A -> M B) (s s' : DriverState)
    (t : Js.Thrown) :
  m s = (inl t, s') -> bind m k s = (inl t, s').
Proof. intros H. unfold bind. now rewrite H. Qed.

Lemma perform_resolved (c : Call) (v : Ret c) (s : DriverState) :
  respond w (tick s) c = inr v ->
  perform w c s
  = (inr v, {| browser := browser s; page := page s; tick := S (tick s);
               trace := (c, true) :: trace s |}).
Proof. intros H. unfold perform. now rewrite H. Qed.

Lemma perform_thrown (c : Call) (t : Js.Thrown) (s : DriverState) :
  respond w (tick s) c = inl t ->
  perform w c s
  = (inl t, {| browser := browser s; page := page s; tick := S (tick s);
               trace := (c, false) :: trace s |}).
Proof. intros H. unfold perform. now rewrite H. Qed.

(** What a run of [clickFirstFound] adds to the log. *)
Lemma clickFirstFound_delta (p : Page) (selectors : list string) (s : DriverState) :
  exists (clicked : bool) (s' : DriverState) (delta : list (Call * bool)),
    clickFirstFound w p selectors s = (inr clicked, s') /\
    trace s' = (delta ++ trace s)%list /\
    forallb is_query_or_click delta = true /\
    length (List.filter is_click_ok delta) = (if clicked then 1 else 0) /\
    (clicked = true -> exists e rest, delta = (CClick e, true) :: rest).
Proof.
  revert s; induction selectors as [|sel rest IH]; intros s.
  - exists false, s, []. repeat split. discriminate.
  - cbn [clickFirstFound]. unfold bind at 1, try_catch, bind at 1, perform at 1.
    destruct (respond w (tick s) (CLocatorAll p sel)) as [t|[|e0 l]];
      cbn [resolved tick browser page trace ret].
    + match goal with
      | |- context [clickFirstFound w p rest ?s1] =>
          destruct (IH s1) as (b & s' & delta & Hrun & Htr & Hall & Hcnt & Hhd);
          rewrite Hrun
      end.
      exists b, s', (delta ++ [(CLocatorAll p sel, false)])%list.
      split; [reflexivity|]. split; [now rewrite Htr, <- app_assoc|].
      split; [now rewrite forallb_app, Hall|]. split; [|].
      * rewrite List.filter_app, List.length_app. simpl. lia.
      * intros Hb. destruct (Hhd Hb) as (e & r & ->). now eexists _, _.
    + unfold ret.
      match goal with
      | |- context [clickFirstFound w p rest ?s1] =>
          destruct (IH s1) as (b & s' & delta & Hrun & Htr & Hall & Hcnt & Hhd);
          rewrite Hrun
      end.
      exists b, s', (delta ++ [(CLocatorAll p sel, true)])%list.
      split; [reflexivity|]. split; [now rewrite Htr, <- app_assoc|].
      split; [now rewrite forallb_app, Hall|]. split; [|].
      * rewrite List.filter_app, List.length_app. simpl. lia.
      * intros Hb. destruct (Hhd Hb) as (e & r & ->). now eexists _, _.
    + unfold bind at 1, perform at 1. cbn [resolved tick browser page trace].
      destruct (respond w (S (tick s)) (CClick e0)) as [t|[]];
        cbn [resolved tick browser page trace ret].
      * match goal with
        | |- context [clickFirstFound w p rest ?s1] =>
            destruct (IH s1) as (b & s' & delta & Hrun & Htr & Hall & Hcnt & Hhd);
            rewrite Hrun
        end.
        exists b, s',
          (delta ++ [(CClick e0, false); (CLocatorAll p sel, true)])%list.
        split; [reflexivity|]. split; [now rewrite Htr, <- app_assoc|].
        split; [now rewrite forallb_app, Hall|]. split; [|].
        -- rewrite List.filter_app, List.length_app. simpl. lia.
        -- intros Hb. destruct (Hhd Hb) as (e & r & ->). now eexists _, _.
      * unfold ret. eexists true, _, [(CClick e0, true); (CLocatorAll p sel, true)].
        repeat split. intros _. now eexists _, _.
Qed.

(** X6. Each control of the modal flow is clicked at most once: the
    selector loop never throws, answers whether a click went through,
    stops right after the first click that does, and makes nothing but
    locator queries and clicks. *)
Theorem clickFirstFound_clicks_once (p : Page) (selectors : list string) (s : DriverState) :
  exists (clicked : bool) (s' : DriverState) (delta : list (Call * bool)),
    clickFirstFound w p selectors s = (inr clicked, s') /\
    trace s' = (delta ++ trace s)%list /\
    forallb is_query_or_click delta = true /\
    length (List.filter is_click_ok delta) = (if clicked then 1 else 0) /\
    (clicked = true -> exists e rest, delta = (CClick e, true) :: rest).
Proof. apply clickFirstFound_delta. Qed.

Lemma fill_of_query_or_click (delta : list (Call * bool)) :
  forallb is_query_or_click delta = true -> flat_map fill_of delta = [].
Proof.
  induction delta as [|[c ok] delta IH]; simpl; [reflexivity|].
  intros H. apply andb_true_iff in H as [Hc Hd].
  rewrite (IH Hd). destruct c; try discriminate; reflexivity.
Qed.

Lemma filled_app (delta tr : list (Call * bool)) :
  filled (delta ++ tr) = (filled tr ++ rev (flat_map fill_of delta))%list.
Proof.
  unfold filled. fold fill_of. now rewrite flat_map_app, rev_app_distr.
Qed.

Lemma filled_cons (ev : Call * bool) (tr : list (Call * bool)) :
  filled (ev :: tr) = (filled tr ++ fill_of ev)%list.
Proof.
  unfold filled. fold fill_of. cbn [flat_map]. rewrite rev_app_distr.
  f_equal. destruct ev as [c [|]]; destruct c; reflexivity.
Qed.

(** X7. When the order modal does not show up, the whole modal flow is
    skipped: [handleOrderModal] returns normally after the one failed
    wait, without any click or fill. With no page at all it returns
    without a single external call. *)
Theorem handleOrderModal_without_modal :
  (forall (p : Page) (s : DriverState) (e : Js.Thrown),
     respond w (tick s) (CWaitForSelector p ".modal-body") = inl e ->
     handleOrderModal w (Some p) s
       = (inr tt, {| browser := browser s; page := page s;
                     tick := S (tick s);
                     trace := (CWaitForSelector p ".modal-body", false) :: trace s |})) /\
  (forall s : DriverState, handleOrderModal w None s = (inr tt, s)).
Proof.
  split.
  - intros p s e Hwait.
    unfold handleOrderModal, try_catch, bind at 1, on_page, ret at 1.
    unfold bind at 1, perform at 1. now rewrite Hwait.
  - intros s. reflexivity.
Qed.

(** X8. When the address form shows up and the waits and fills go
    through, [fillAddressForm] types the four fixed values in the order
    street, apartment (left blank), zip code, instructions, and fills
    nothing else, whatever becomes of the two buttons. When the form
    does not show up, nothing is filled. *)
Theorem fillAddressForm_fills_fixed_values (p : Page) :
  ((forall t, respond w t (CWaitForSelector p "#address") = inr tt) ->
   (forall t ms, respond w t (CWaitForTimeout p ms) = inr tt) ->
   (forall t sel v, respond w t (CFill p sel v) = inr tt) ->
   forall s : DriverState,
     filled (trace (snd (fillAddressForm w (Some p) s)))
     = (filled (trace s) ++ addressFormValues)%list) /\
  (forall (s : DriverState) (e : Js.Thrown),
     respond w (tick s) (CWaitForSelector p "#address") = inl e ->
     filled (trace (snd (fillAddressForm w (Some p) s))) = filled (trace s)).
Proof.
  split.
  - intros Hsel Hwait Hfill s.
    assert (Step : forall (c : Call) (B : Type) (k : Ret c -> M B) (st : DriverState)
                          (v : Ret c),
              respond w (tick st) c = inr v ->
              bind (perform w c) k st
              = k v {| browser := browser st; page := page st; tick := S (tick st);
                       trace := (c, true) :: trace st |}).
    { intros c B k st v H. apply bind_resolved. now apply perform_resolved. }
    unfold fillAddressForm, try_catch. cbn [on_page].
    rewrite (bind_resolved (ret p) _ s s p eq_refl).
    rewrite (Step (CWaitForSelector p "#address") _ _ _ tt (Hsel _)).
    cbn [tick browser page trace].
    rewrite (Step (CWaitForTimeout p 1000) _ _ _ tt (Hwait _ _)).
    cbn [tick browser page trace].
    rewrite (Step (CFill p "#address" _) _ _ _ tt (Hfill _ _ _)).
    cbn [tick browser page trace].
    rewrite (Step (CWaitForTimeout p 500) _ _ _ tt (Hwait _ _)).
    cbn [tick browser page trace].
    rewrite (Step (CFill p "#apartment" _) _ _ _ tt (Hfill _ _ _)).
    cbn [tick browser page trace].
    rewrite (Step (CWaitForTimeout p 300) _ _ _ tt (Hwait _ _)).
    cbn [tick browser page trace].
    rewrite (Step (CFill p "#zipcode" _) _ _ _ tt (Hfill _ _ _)).
    cbn [tick browser page trace].
    rewrite (Step (CWaitForTimeout p 500) _ _ _ tt (Hwait _ _)).
    cbn [tick browser page trace].
    rewrite (Step (CFill p "#instructions" _) _ _ _ tt (Hfill _ _ _)).
    cbn [tick browser page trace].
    rewrite (Step (CWaitForTimeout p 500) _ _ _ tt (Hwait _ _)).
    cbn [tick browser page trace].
    rewrite (Step (CWaitForTimeout p 1500) _ _ _ tt (Hwait _ _)).
    cbn [tick browser page trace].
    match goal with
    | |- context [bind (clickFirstFound w p verifySelectors) _ ?s1] =>
        destruct (clickFirstFound_delta p verifySelectors s1)
          as (b1 & s2 & d1 & Hrun1 & Htr1 & Hall1 & _);
        cbn [trace] in Htr1;
        rewrite (bind_resolved _ _ s1 s2 b1 Hrun1)
    end.
    rewrite (Step (CWaitForTimeout p 2000) _ _ _ tt (Hwait _ _)).
    match goal with
    | |- context [bind (clickFirstFound w p addToCartSelectors) _ ?s3] =>
        destruct (clickFirstFound_delta p addToCartSelectors s3)
          as (b2 & s4 & d2 & Hrun2 & Htr2 & Hall2 & _);
        cbn [trace] in Htr2;
        rewrite (bind_resolved _ _ s3 s4 b2 Hrun2)
    end.
    rewrite (perform_resolved (CWaitForTimeout p 2000) tt s4 (Hwait _ _)).
    cbn [snd trace].
    rewrite Htr2, Htr1.
    rewrite filled_cons, filled_app, filled_cons, filled_app, !filled_cons.
    rewrite (fill_of_query_or_click d1 Hall1), (fill_of_query_or_click d2 Hall2).
    cbn [fill_of rev app]. rewrite !app_nil_r, <- !app_assoc. reflexivity.
  - intros s e Hsel.
    unfold fillAddressForm, try_catch. cbn [on_page].
    rewrite (bind_resolved (ret p) _ s s p eq_refl).
    rewrite (bind_thrown _ _ s _ e (perform_thrown _ e s Hsel)).
    reflexivity.
Qed.

End ModalFlow.

Lemma handleOrderModal_without_modal_witness :
  exists s',
    handleOrderModal noModalWorld (Some 1) initialState = (inr tt, s') /\
    trace s' = [(CWaitForSelector 1 ".modal-body", false)].
Proof.
  eexists. split.
  - exact (proj1 (handleOrderModal_without_modal noModalWorld)
             1 initialState modalTimeout eq_refl).
  - reflexivity.
Defined.

Lemma fillAddressForm_fills_fixed_values_witness :
  filled (trace (snd (fillAddressForm quietWorld (Some 1) initialState)))
  = addressFormValues.
Proof.
  exact (proj1 (fillAddressForm_fills_fixed_values quietWorld 1)
           (fun _ => eq_refl) (fun _ _ => eq_refl) (fun _ _ _ => eq_refl)
           initialState).
Defined.

(** ** Searching and clicking the item *)

Section ItemSearch.

Variable w : World.
Variables TARGET_URL OUT_DIR : string.

Lemma takeScreenshot_resolved (pg : option Page) (tag path : string)
    (s s' : DriverState) :
  takeScreenshot w OUT_DIR pg tag s = (inr path, s') ->
  exists p, pg = Some p /\ page s' = page s /\
            trace s' = (CScreenshot p path, true) :: trace s.
Proof.
  unfold takeScreenshot, bind, date_now, on_page, perform, ret, throw.
  destruct pg as [p|]; [|discriminate].
  destruct (respond w (tick s) (CScreenshot p _)) as [t|[]]; [discriminate|].
  intros H. injection H as <- <-. exists p. repeat split.
Qed.

Lemma or_default_truthy (o : option string) (c : ascii) (d : string) :
  Js.truthy (Some (Js.or_default o (String c d))) = true.
Proof. destruct o as [[|x s]|]; reflexivity. Qed.

Lemma searchItems_shape menuItems wanted s result s' :
  searchItems w menuItems wanted s = (inr result, s') ->
  found_shape result \/ missed_shape result.
Proof.
  revert s; induction menuItems as [|item rest IH]; intros s; simpl.
  - unfold ret. intros H. injection H as <- _. right. repeat split.
  - unfold bind, perform, try_catch, ret.
    destruct (respond w (tick s) (CGetAttribute item "item-name")) as [t|nm];
      [discriminate|].
    cbn [tick browser page trace].
    destruct (respond w (S (tick s)) (CTextContent item)) as [t|text];
      [discriminate|].
    cbn [tick browser page trace].
    destruct (isItemMatch _ wanted); [|apply IH].
    cbn [tick browser page trace].
    destruct (respond w (S (S (tick s))) (CClick item)) as [t|[]].
    + apply IH.
    + intros H. injection H as <- _. left. repeat split.
      apply or_default_truthy.
Qed.

Lemma findAndClickItem_shape pg wanted s result s' :
  findAndClickItem w pg wanted s = (inr result, s') ->
  found_shape result \/ missed_shape result.
Proof.
  unfold findAndClickItem, bind.
  destruct (firstNonEmpty w pg itemSelectors s) as [[t|[|item rest]] s1];
    [discriminate | | apply searchItems_shape].
  unfold ret. intros H. injection H as <- _. right. repeat split.
Qed.

(** X9. Every result [orderFoodItem] returns is coherent: it echoes the
    requested name and quantity; [success] and [found] agree; a success
    names the clicked element and carries no error; a failure carries
    an error and no clicked element; and the screenshot path it names is
    the file written by the last external call of the operation. *)
Theorem orderFoodItem_result_coherent (wanted : string) (qty : Z)
    (cust : option (list (string * string))) (s s' : DriverState)
    (r : OrderResult) :
  orderFoodItem w TARGET_URL OUT_DIR wanted qty cust s = (inr r, s') ->
  itemName r = wanted /\ quantity r = qty /\ success r = found r /\
  (success r = true ->
   error r = None /\ Js.truthy (clickedElement r) = true) /\
  (success r = false ->
   clickedElement r = None /\ exists msg, error r = Some msg) /\
  (exists p rest, trace s' = (CScreenshot p (screenshot r), true) :: rest).
Proof.
  assert (Handler : forall e s2,
    bind get_page (fun pg =>
      bind (takeScreenshot w OUT_DIR pg "click-error") (fun shot =>
        ret {| success := false; itemName := wanted; quantity := qty;
               found := false; screenshot := shot;
               error := Some (Js.message_or_string e);
               clickedElement := None |})) s2 = (inr r, s') ->
    itemName r = wanted /\ quantity r = qty /\ success r = found r /\
    (success r = true ->
     error r = None /\ Js.truthy (clickedElement r) = true) /\
    (success r = false ->
     clickedElement r = None /\ exists msg, error r = Some msg) /\
    (exists p rest, trace s' = (CScreenshot p (screenshot r), true) :: rest)).
  { intros e s2. unfold bind at 1, get_page. unfold bind at 1.
    destruct (takeScreenshot w OUT_DIR (page s2) "click-error" s2)
      as [[e'|path] s3] eqn:Hshot; [discriminate|].
    unfold ret. intros H. injection H as <- <-.
    destruct (takeScreenshot_resolved _ _ _ _ _ Hshot) as (p & _ & _ & Htr).
    simpl. repeat split; try discriminate; eauto. }
  unfold orderFoodItem. unfold bind at 1.
  destruct (perform w (CMkdir OUT_DIR) s) as [[e|[]] s0]; [discriminate|].
  unfold bind at 1.
  destruct (initBrowser w TARGET_URL s0) as [[e|[]] s1]; [discriminate|].
  unfold try_catch. unfold bind at 1, get_page at 1. unfold bind at 1.
  destruct (findAndClickItem w (page s1) wanted s1) as [[e|result] s2] eqn:Hfind;
    [apply Handler|].
  unfold bind at 1.
  destruct ((if find_success result then handleOrderModal w (page s1) else ret tt) s2)
    as [[e|[]] s3]; [apply Handler|].
  unfold bind at 1.
  destruct (takeScreenshot w OUT_DIR (page s1) "item-clicked" s3)
    as [[e|path] s4] eqn:Hshot; [apply Handler|].
  unfold ret. intros H. injection H as <- <-.
  destruct (takeScreenshot_resolved _ _ _ _ _ Hshot) as (p & _ & _ & Htr).
  cbn [itemName quantity success found error clickedElement screenshot].
  unfold spread_if_truthy.
  destruct (findAndClickItem_shape _ _ _ _ _ Hfind)
    as [(Hs & Hf & He & Hc) | (Hs & Hf & He & Hc)];
    rewrite Hs, Hf, He, Hc; cbn [Js.truthy].
  - repeat split; try discriminate; eauto.
  - repeat split; try discriminate; eauto.
    destruct (find_error result); [eauto | discriminate He].
Qed.

Lemma firstNonEmpty_delta pg selectors s :
  exists delta,
    trace (snd (firstNonEmpty w pg selectors s)) = (delta ++ trace s)%list /\
    forallb is_query delta = true.
Proof.
  revert s; induction selectors as [|sel rest IH]; intros s.
  - exists []. split; reflexivity.
  - cbn [firstNonEmpty]. unfold bind at 1, on_page.
    destruct pg as [p|]; [|exists []; split; reflexivity].
    unfold ret at 1. unfold bind at 1, perform at 1.
    destruct (respond w (tick s) (CLocatorAll p sel)) as [t|[|e0 l]];
      cbn [resolved tick browser page trace snd].
    + exists [(CLocatorAll p sel, false)]. split; reflexivity.
    + match goal with
      | |- context [firstNonEmpty w (Some p) rest ?s1] =>
          destruct (IH s1) as (delta & Htr & Hall)
      end.
      exists (delta ++ [(CLocatorAll p sel, true)])%list.
      split; [now rewrite Htr, <- app_assoc | now rewrite forallb_app, Hall].
    + exists [(CLocatorAll p sel, true)]. split; reflexivity.
Qed.

Lemma no_click_in_queries (delta : list (Call * bool)) :
  forallb is_query delta = true -> List.filter is_click delta = [].
Proof.
  induction delta as [|[c ok] delta IH]; simpl; [reflexivity|].
  intros H. apply andb_true_iff in H as [Hc Hd].
  destruct c; try discriminate. simpl. now apply IH.
Qed.

(** X10. When no candidate element matches the requested name, nothing
    is clicked: the search only reads the candidates, and a result, if
    one comes back, is a failure. *)
Theorem findAndClickItem_clicks_only_matches (wanted : string) :
  (forall t el nm text,
     respond w t (CGetAttribute el "item-name") = inr nm ->
     respond w (S t) (CTextContent el) = inr text ->
     isItemMatch (Js.or_default (Js.or_else nm text) EmptyString) wanted = false) ->
  forall (pg : option Page) (s : DriverState),
    (exists delta,
       trace (snd (findAndClickItem w pg wanted s)) = (delta ++ trace s)%list /\
       List.filter is_click delta = []) /\
    (forall result,
       fst (findAndClickItem w pg wanted s) = inr result ->
       find_success result = false /\ find_found result = false).
Proof.
  intros Hmiss.
  assert (Loop : forall menuItems s r s',
    searchItems w menuItems wanted s = (r, s') ->
    (exists delta,
       trace s' = (delta ++ trace s)%list /\ List.filter is_click delta = []) /\
    (forall result,
       r = inr result -> find_success result = false /\ find_found result = false)).
  { induction menuItems as [|item rest IH]; intros s r s'; cbn [searchItems].
    - unfold ret. intros H. injection H as <- <-.
      split; [exists []; split; reflexivity|].
      intros result H. injection H as <-. split; reflexivity.
    - unfold bind at 1, perform at 1.
      destruct (respond w (tick s) (CGetAttribute item "item-name")) as [t|nm] eqn:Hn;
        cbn [resolved tick browser page trace].
      { intros H. injection H as <- <-.
        split; [|intros result H; discriminate H].
        exists [(CGetAttribute item "item-name", false)]. split; reflexivity. }
      unfold bind at 1, perform at 1. cbn [resolved tick browser page trace].
      destruct (respond w (S (tick s)) (CTextContent item)) as [t|text] eqn:Ht;
        cbn [resolved tick browser page trace].
      { intros H. injection H as <- <-.
        split; [|intros result H; discriminate H].
        exists [(CTextContent item, false); (CGetAttribute item "item-name", true)].
        split; reflexivity. }
      rewrite (Hmiss _ _ _ _ Hn Ht). intros H.
      apply IH in H as [(delta & Htr & Hno) Hres]. cbn [trace] in Htr.
      split; [|exact Hres].
      exists (delta ++ [(CTextContent item, true);
                        (CGetAttribute item "item-name", true)])%list.
      split; [now rewrite Htr, <- app_assoc|].
      rewrite List.filter_app, Hno. reflexivity. }
  intros pg s.
  destruct (findAndClickItem w pg wanted s) as [r s'] eqn:Hrun. cbn [fst snd].
  unfold findAndClickItem, bind in Hrun.
  destruct (firstNonEmpty_delta pg itemSelectors s) as (d0 & Htr0 & Hall0).
  destruct (firstNonEmpty w pg itemSelectors s) as [[t|[|item rest]] s1];
    cbn [snd] in Htr0.
  - injection Hrun as <- <-.
    split; [|intros result H; discriminate H]. exists d0. split; [exact Htr0|].
    now apply no_click_in_queries.
  - unfold ret in Hrun. injection Hrun as <- <-. split.
    + exists d0. split; [exact Htr0 | now apply no_click_in_queries].
    + intros result H. injection H as <-. split; reflexivity.
  - apply Loop in Hrun as [(delta & Htr & Hno) Hres].
    split; [|exact Hres].
    exists (delta ++ d0)%list. split; [now rewrite Htr, Htr0, <- app_assoc|].
    rewrite List.filter_app, Hno. now apply no_click_in_queries.
Qed.

(** X11. A click that fails is never fatal: as long as the page can be
    queried and the candidates can be read, [findAndClickItem] returns
    a result, whatever the clicks do. *)
Theorem findAndClickItem_tolerates_click_failures (p : Page) (wanted : string) :
  (forall t sel, resolved (respond w t (CLocatorAll p sel)) = true) ->
  (forall t el attr, resolved (respond w t (CGetAttribute el attr)) = true) ->
  (forall t el, resolved (respond w t (CTextContent el)) = true) ->
  forall s : DriverState,
    exists result s', findAndClickItem w (Some p) wanted s = (inr result, s').
Proof.
  intros Hquery Hattr Htext.
  assert (Sel : forall selectors s,
            exists l s', firstNonEmpty w (Some p) selectors s = (inr l, s')).
  { induction selectors as [|sel rest IH]; intros s; cbn [firstNonEmpty].
    - eexists _, _. reflexivity.
    - unfold bind at 1, on_page, ret at 1. unfold bind at 1, perform at 1.
      specialize (Hquery (tick s) sel).
      destruct (respond w (tick s) (CLocatorAll p sel)) as [t|[|e0 l]];
        [discriminate | apply IH | eexists _, _; reflexivity]. }
  assert (Loop : forall menuItems s,
            exists result s', searchItems w menuItems wanted s = (inr result, s')).
  { induction menuItems as [|item rest IH]; intros s; cbn [searchItems].
    - eexists _, _. reflexivity.
    - unfold bind at 1, perform at 1.
      specialize (Hattr (tick s) item "item-name").
      destruct (respond w (tick s) (CGetAttribute item "item-name")) as [t|nm];
        [discriminate|].
      unfold bind at 1, perform at 1. cbn [resolved tick browser page trace].
      specialize (Htext (S (tick s)) item).
      destruct (respond w (S (tick s)) (CTextContent item)) as [t|text];
        [discriminate|].
      destruct (isItemMatch _ wanted); [|apply IH].
      unfold try_catch, bind at 1, perform at 1.
      cbn [resolved tick browser page trace].
      destruct (respond w (S (S (tick s))) (CClick item)) as [t|[]];
        [apply IH | eexists _, _; reflexivity]. }
  intros s. unfold findAndClickItem, bind.
  destruct (Sel itemSelectors s) as (l & s1 & Hsel). rewrite Hsel.
  destruct l as [|item rest]; [eexists _, _; reflexivity | apply Loop].
Qed.

(** X12. A session whose page could not be opened is never repaired.
    If the launch goes through and opening the context fails,
    [initBrowser] throws and leaves [browser] set with [page] still
    null; from such a state every later call skips the initialisation,
    and [orderFoodItem] throws the [TypeError] of its failure
    screenshot without any call to the browser. *)
Theorem initBrowser_session_without_page :
  (forall (s : DriverState) (b : Browser) (e : Js.Thrown),
     browser s = None ->
     respond w (tick s) CLaunch = inr b ->
     respond w (S (tick s)) (CNewContext b) = inl e ->
     fst (initBrowser w TARGET_URL s) = inl e /\
     browser (snd (initBrowser w TARGET_URL s)) = Some b /\
     page (snd (initBrowser w TARGET_URL s)) = page s) /\
  (forall (s : DriverState) (b : Browser) (wanted : string) (qty : Z)
          (cust : option (list (string * string))),
     browser s = Some b ->
     page s = None ->
     respond w (tick s) (CMkdir OUT_DIR) = inr tt ->
     orderFoodItem w TARGET_URL OUT_DIR wanted qty cust s
       = (inl (Js.TypeError_read "null" "screenshot"),
          {| browser := Some b; page := None; tick := S (tick s);
             trace := (CMkdir OUT_DIR, true) :: trace s |})).
Proof.
  split.
  - intros s b e Hb Hlaunch Hctx.
    unfold initBrowser, bind, get_browser, set_browser, perform.
    rewrite Hb, Hlaunch. cbn [resolved tick browser page trace].
    rewrite Hctx. repeat split.
  - intros s b wanted qty cust Hb Hp Hmk.
    unfold orderFoodItem. unfold bind at 1, perform at 1. rewrite Hmk.
    unfold bind at 1.
    rewrite (initBrowser_reuses w TARGET_URL _ b) by exact Hb.
    unfold try_catch, bind at 1, get_page at 1.
    cbn [resolved tick browser page trace]. rewrite Hp, Hb.
    reflexivity.
Qed.

End ItemSearch.

Lemma orderFoodItem_result_coherent_witness :
  exists r s',
    orderFoodItem bagelWorld sampleUrl sampleOutDir "bagel" 2 None initialState
      = (inr r, s') /\
    success r = true /\ found r = true /\ clickedElement r = Some "Bagel" /\
    error r = None /\ itemName r = "bagel" /\ quantity r = 2%Z.
Proof.
  pose (run := orderFoodItem bagelWorld sampleUrl sampleOutDir "bagel" 2 None
                 initialState).
  assert (Hrun : run = (inr {| success := true; itemName := "bagel"; quantity := 2;
                               found := true;
                               screenshot :=
                                 "/srv/ada/orders/item-clicked-1700000000000.png";
                               error := None;
                               clickedElement := Some "Bagel" |}, snd run))
    by (vm_compute; reflexivity).
  destruct (orderFoodItem_result_coherent bagelWorld sampleUrl sampleOutDir
              "bagel" 2%Z None initialState (snd run) _ Hrun)
    as (Hn & Hq & _ & _ & _ & _).
  eexists _, (snd run). split; [exact Hrun|].
  repeat split; assumption.
Defined.

Lemma findAndClickItem_clicks_only_matches_witness :
  exists delta,
    trace (snd (findAndClickItem bagelWorld (Some 1) "coffee" initialState))
      = (delta ++ [])%list /\
    List.filter is_click delta = [].
Proof.
  refine (proj1 (findAndClickItem_clicks_only_matches bagelWorld "coffee" _
                   (Some 1) initialState)).
  intros t el nm text Hn Ht. simpl in Hn, Ht.
  injection Hn as <-. injection Ht as <-. reflexivity.
Defined.

Lemma findAndClickItem_tolerates_click_failures_witness :
  exists result s',
    findAndClickItem stubbornWorld (Some 1) "bagel" initialState = (inr result, s').
Proof.
  exact (findAndClickItem_tolerates_click_failures stubbornWorld 1 "bagel"
           (fun _ _ => eq_refl) (fun _ _ _ => eq_refl) (fun _ _ => eq_refl)
           initialState).
Defined.

Lemma initBrowser_session_without_page_witness :
  fst (initBrowser noContextWorld sampleUrl initialState) = inl contextFailed /\
  browser (snd (initBrowser noContextWorld sampleUrl initialState)) = Some 1 /\
  fst (orderFoodItem noContextWorld sampleUrl sampleOutDir "coffee" 1 None
         (snd (initBrowser noContextWorld sampleUrl initialState)))
    = inl (Js.TypeError_read "null" "screenshot").
Proof.
  destruct (proj1 (initBrowser_session_without_page noContextWorld sampleUrl
                     sampleOutDir)
              initialState 1 contextFailed eq_refl eq_refl eq_refl)
    as (Hthrow & Hb & Hp).
  split; [exact Hthrow|]. split; [exact Hb|].
  rewrite (proj2 (initBrowser_session_without_page noContextWorld sampleUrl
                    sampleOutDir)
             (snd (initBrowser noContextWorld sampleUrl initialState)) 1
             "coffee" 1%Z None Hb Hp eq_refl).
  reflexivity.
Defined.

(** ** Browsing the menu *)

Section Browsing.

Variable w : World.
Variable TARGET_URL : string.

Lemma take_length (n : nat) (s : string) : String.length (Js.take n s) <= n.
Proof.
  revert s; induction n as [|n IH]; intros [|c s]; simpl; try lia.
  specialize (IH s). lia.
Qed.

Lemma or_default_nonempty (o : option string) (c : ascii) (d : string) :
  Js.or_default o (String c d) <> EmptyString.
Proof. destruct o as [[|x s]|]; discriminate. Qed.

Lemma resolved_eq {A} (a b : A) (s s' : DriverState) :
  (@inr Js.Thrown A a, s) = (inr b, s') -> a = b /\ s = s'.
Proof. intros H. now injection H. Qed.

Lemma collectItems_cons (item : Locator) (rest : list Locator) :
  collectItems w (item :: rest)
  = bind (perform w (CGetAttribute item "item-name")) (fun nm =>
    bind (perform w (CGetAttribute item "item-price")) (fun pr =>
    bind (perform w (CTextContent item)) (fun text =>
    bind (collectItems w rest) (fun more =>
    ret (match nm with
         | Some (String c n') =>
             {| name := String c n';
                price := Js.or_default pr "0.00";
                description := option_map (Js.take 100) text;
                category := Some "Unknown";
                available := true |} :: more
         | _ => more
         end))))).
Proof. reflexivity. Qed.

Lemma collectItems_scraped menuItems s l s' :
  collectItems w menuItems s = (inr l, s') -> Forall scraped_item l.
Proof.
  revert s l s'; induction menuItems as [|item rest IH]; intros s l s'.
  - unfold collectItems, ret. intros H. injection H as <- _. constructor.
  - rewrite collectItems_cons. unfold bind at 1.
    destruct (perform w (CGetAttribute item "item-name") s) as [[t|nm] s1];
      [discriminate|].
    unfold bind at 1.
    destruct (perform w (CGetAttribute item "item-price") s1) as [[t|pr] s2];
      [discriminate|].
    unfold bind at 1.
    destruct (perform w (CTextContent item) s2) as [[t|text] s3]; [discriminate|].
    unfold bind at 1.
    destruct (collectItems w rest s3) as [[t|more] s4] eqn:Hrest; [discriminate|].
    unfold ret. intros H. apply resolved_eq in H as [<- _].
    specialize (IH _ _ _ Hrest).
    destruct nm as [[|c n']|]; try exact IH.
    constructor; [|exact IH].
    unfold scraped_item.
    cbv beta iota delta [name price category available description].
    split; [discriminate|]. split; [apply or_default_nonempty|].
    split; [reflexivity|]. split; [reflexivity|].
    destruct text as [d|]; [apply take_length | exact I].
Qed.

(** X13. Every item [browseMenu] returns has a name, a price ("0.00"
    when the card has none), the category "Unknown", is marked
    available and has a description of at most 100 code units; with a
    search term, every item returned contains the term in its name or
    its description, case aside. *)
Theorem browseMenu_items (cat search : option string) (s s' : DriverState)
    (l : list MenuItem) :
  browseMenu w TARGET_URL cat search s = (inr l, s') ->
  Forall scraped_item l /\
  (forall (c : ascii) (term : string),
     search = Some (String c term) ->
     Forall (fun m => menuItemMatches (String c term) m = true) l).
Proof.
  unfold browseMenu. unfold bind at 1.
  destruct (initBrowser w TARGET_URL s) as [[e|[]] s1]; [discriminate|].
  unfold try_catch. unfold bind at 1, get_page at 1. unfold bind at 1.
  destruct (getMenuItems w (page s1) s1) as [[e|menuItems] s2] eqn:Hmenu.
  - unfold ret. intros H. injection H as <- _.
    split; [constructor | intros; constructor].
  - unfold ret. intros H. injection H as <- _.
    assert (Hall : Forall scraped_item menuItems).
    { unfold getMenuItems, bind in Hmenu.
      destruct (firstNonEmpty w (page s1) menuSelectors s1) as [[t|els] s1'];
        [discriminate|].
      exact (collectItems_scraped _ _ _ _ Hmenu). }
    split.
    + destruct search as [[|c term]|]; try exact Hall.
      apply List.Forall_forall. intros m Hin. apply List.filter_In in Hin as [Hin _].
      rewrite List.Forall_forall in Hall. now apply Hall.
    + intros c term ->. apply List.Forall_forall. intros m Hin.
      now apply List.filter_In in Hin as [_ Hm].
Qed.

(** X14. [browseMenu] throws exactly what [initBrowser] throws, and
    nothing else: once the session is there, any failure while reading
    the menu is answered with the empty list. *)
Theorem browseMenu_failures (cat search : option string) (s : DriverState) :
  (forall e : Js.Thrown,
     fst (browseMenu w TARGET_URL cat search s) = inl e <->
     fst (initBrowser w TARGET_URL s) = inl e) /\
  (forall (s1 s2 : DriverState) (e : Js.Thrown),
     initBrowser w TARGET_URL s = (inr tt, s1) ->
     getMenuItems w (page s1) s1 = (inl e, s2) ->
     browseMenu w TARGET_URL cat search s = (inr [], s2)).
Proof.
  split.
  - intros e. unfold browseMenu. unfold bind at 1.
    destruct (initBrowser w TARGET_URL s) as [[e0|[]] s1];
      [cbn [fst]; split; intros H; injection H as ->; reflexivity|].
    unfold try_catch. unfold bind at 1, get_page at 1. unfold bind at 1.
    destruct (getMenuItems w (page s1) s1) as [[e1|menuItems] s2];
      simpl; split; discriminate.
  - intros s1 s2 e Hinit Hmenu. unfold browseMenu. unfold bind at 1.
    rewrite Hinit. unfold try_catch. unfold bind at 1, get_page at 1.
    unfold bind at 1. now rewrite Hmenu.
Qed.

End Browsing.

Lemma browseMenu_items_witness :
  exists l s',
    browseMenu pricelessWorld sampleUrl None (Some "CREAM") initialState = (inr l, s') /\
    l = [{| name := "Bagel"; price := "0.00";
            description := Some "Bagel, toasted, with cream cheese";
            category := Some "Unknown"; available := true |}] /\
    Forall scraped_item l.
Proof.
  pose (run := browseMenu pricelessWorld sampleUrl None (Some "CREAM") initialState).
  assert (Hrun : run = (inr [{| name := "Bagel"; price := "0.00";
                                description := Some "Bagel, toasted, with cream cheese";
                                category := Some "Unknown"; available := true |}],
                        snd run))
    by (vm_compute; reflexivity).
  eexists _, (snd run). split; [exact Hrun|]. split; [reflexivity|].
  exact (proj1 (browseMenu_items pricelessWorld sampleUrl None (Some "CREAM")
                  initialState (snd run) _ Hrun)).
Defined.

Lemma browseMenu_failures_witness :
  browseMenu crashedPageWorld sampleUrl None None initialState
  = (inr [], snd (browseMenu crashedPageWorld sampleUrl None None initialState)).
Proof.
  pose (s1 := snd (initBrowser crashedPageWorld sampleUrl initialState)).
  pose (s2 := snd (getMenuItems crashedPageWorld (page s1) s1)).
  rewrite (proj2 (browseMenu_failures crashedPageWorld sampleUrl None None
                    initialState)
             s1 s2 pageCrashed eq_refl eq_refl).
  reflexivity.
Defined.

(** ** The Calendar/Gmail handlers: authentication and errors *)

Section HandlerOutcomes.

Variable remote : Remote.
Variable fmt : Js.Json -> Js.Thrown + string.
Variable b64 : string -> string.

(** X15. When authentication fails, no handler sends a request. Seven
    handlers throw the authentication error as it is, since [getAuth]
    is awaited outside their [try]; only [list_calendars] awaits it
    inside. *)
Theorem handlers_without_authentication (err : Js.Thrown) :
  getAuth remote = inl err ->
  snd (list_calendars remote fmt) = [] /\
  (forall a, create_event remote fmt a = (inl err, [])) /\
  (forall a rule, create_recurring_event remote fmt a rule = (inl err, [])) /\
  (forall a, list_events remote fmt a = (inl err, [])) /\
  (forall a, list_emails remote fmt a = (inl err, [])) /\
  (forall a, get_email remote fmt a = (inl err, [])) /\
  (forall a, send_email remote fmt b64 a = (inl err, [])) /\
  (forall a, search_emails remote fmt a = (inl err, [])).
Proof.
  intros Hauth.
  repeat split; intros;
    unfold list_calendars, create_event, create_recurring_event, list_events,
      list_emails, get_email, send_email, search_emails, authenticate, glift,
      gtry, gbind, log_calendar_error;
    rewrite Hauth; try reflexivity.
  destruct err as [[n m [st|]]|v]; reflexivity.
Qed.

(** X16. Once authenticated, each of the six handlers that guard their
    request sends exactly that one request and always answers with a
    text: the text built from the response, or the handler's own error
    prefix followed by the message when the request fails or the
    response cannot be turned into a text. *)
Theorem guarded_handlers_outcomes :
  getAuth remote = inr tt ->
  (forall a rule,
     create_recurring_event remote fmt a rule
     = guarded_outcome remote fmt "Error creating recurring event: "
         (ReqEventsInsert (ce_calendarId a) (eventObject a (Some rule)) "all")) /\
  (forall a,
     list_events remote fmt a
     = guarded_outcome remote fmt "Error listing events: "
         (ReqEventsList (listEventsParams a))) /\
  (forall a,
     list_emails remote fmt a
     = guarded_outcome remote fmt "Error listing emails: "
         (ReqMessagesList (listEmailsParams a))) /\
  (forall a,
     get_email remote fmt a
     = guarded_outcome remote fmt "Error getting email: "
         (ReqMessagesGet (default "me" (ge_userId a)) (ge_id a)
            (default "full" (ge_format a)))) /\
  (forall a,
     send_email remote fmt b64 a
     = guarded_outcome remote fmt "Error sending email: "
         (ReqMessagesSend (default "me" (se_userId a)) (b64 (emailText a)))) /\
  (forall a,
     search_emails remote fmt a
     = guarded_outcome remote fmt "Error searching emails: "
         (ReqMessagesList (searchEmailsParams a))).
Proof.
  intros Hauth.
  repeat split; intros;
    unfold create_recurring_event, list_events, list_emails, get_email,
      send_email, search_emails, guarded_outcome, authenticate, glift, gtry,
      gbind, call, gret;
    rewrite Hauth;
    match goal with
    | |- context [answer remote ?req] =>
        destruct (answer remote req) as [err|data]; [reflexivity|];
        destruct (fmt data) as [err|text]; reflexivity
    end.
Qed.

(** X17. [list_calendars] answers "Error: ..." only for an error that
    carries an HTTP response. For any other failure, be it of the
    authentication, of the request or of the formatting, its [catch]
    throws a [TypeError] while logging, because it reads
    [err.response.data] unguarded. *)
Theorem list_calendars_outcomes :
  (forall err,
     getAuth remote = inl err ->
     list_calendars remote fmt
     = (if has_response err
        then inr ["Error: " +:+ Js.message_or_self err]
        else inl (Js.TypeError_read "undefined" "data"), [])) /\
  (getAuth remote = inr tt ->
   (forall err,
      answer remote ReqCalendarList = inl err ->
      list_calendars remote fmt
      = (if has_response err
         then inr ["Error: " +:+ Js.message_or_self err]
         else inl (Js.TypeError_read "undefined" "data"), [ReqCalendarList])) /\
   (forall data text,
      answer remote ReqCalendarList = inr data ->
      fmt data = inr text ->
      list_calendars remote fmt = (inr [text], [ReqCalendarList]))).
Proof.
  split; [|intros Hauth; split].
  - intros err Hauth.
    unfold list_calendars, authenticate, glift, gtry, gbind, log_calendar_error.
    rewrite Hauth. destruct err as [[n m [st|]]|v]; reflexivity.
  - intros err Hreq.
    unfold list_calendars, authenticate, glift, gtry, gbind, call,
      log_calendar_error.
    rewrite Hauth, Hreq. destruct err as [[n m [st|]]|v]; reflexivity.
  - intros data text Hreq Hfmt.
    unfold list_calendars, authenticate, glift, gtry, gbind, call, gret.
    now rewrite Hauth, Hreq, Hfmt.
Qed.

End HandlerOutcomes.

Lemma handlers_without_authentication_witness :
  create_event lockedOutRemote plainText (standupArgs None) = (inl authFailed, []) /\
  list_events lockedOutRemote plainText primaryEventsArgs = (inl authFailed, []).
Proof.
  pose proof (handlers_without_authentication lockedOutRemote plainText
                (fun x => x) authFailed eq_refl)
    as (_ & Hcreate & _ & Hlist & _).
  split; [apply Hcreate | apply Hlist].
Defined.

Lemma guarded_handlers_outcomes_witness :
  list_events unreachableRemote plainText primaryEventsArgs
  = (inr ["Error listing events: getaddrinfo ENOTFOUND www.googleapis.com"],
     [ReqEventsList (listEventsParams primaryEventsArgs)]).
Proof.
  pose proof (guarded_handlers_outcomes unreachableRemote plainText (fun x => x)
                eq_refl) as (_ & Hlist & _).
  rewrite Hlist. reflexivity.
Defined.

Lemma list_calendars_outcomes_witness :
  list_calendars lockedOutRemote plainText
  = (inl (Js.TypeError_read "undefined" "data"), []).
Proof.
  exact (proj1 (list_calendars_outcomes lockedOutRemote plainText)
           authFailed eq_refl).
Defined.

(** ** The Calendar/Gmail handlers: the objects they send *)

Lemma set_if_truthy_same (key : string) (v : option string)
    (obj : gmap string Js.Json) :
  set_if_truthy key v obj !! key
  = match spread_if_truthy v with
    | Some s => Some (Js.JStr s)
    | None => obj !! key
    end.
Proof.
  unfold set_if_truthy, spread_if_truthy.
  destruct v as [[|c s]|]; simpl; try reflexivity. apply lookup_insert_eq.
Qed.

(** X18. The event sent by [create_event] and [create_recurring_event]
    always has the summary, and the start and the end in the time zone
    of the arguments, "America/Los_Angeles" when none is given. A
    recurrence rule is passed on as it is, behind the prefix "RRULE:",
    as the only element of [recurrence]; [create_event] sends no
    [recurrence] at all. *)
Theorem eventObject_fixed_fields (a : CreateEventArgs) (recurrence : option string) :
  eventObject a recurrence !! "summary" = Some (Js.JStr (ce_summary a)) /\
  eventObject a recurrence !! "start"
    = Some (dateTime_json (ce_start a)
              (default "America/Los_Angeles" (ce_timeZone a))) /\
  eventObject a recurrence !! "end"
    = Some (dateTime_json (ce_end a)
              (default "America/Los_Angeles" (ce_timeZone a))) /\
  eventObject a recurrence !! "recurrence"
    = option_map (fun rule => Js.JArr [Js.JStr ("RRULE:" +:+ rule)]) recurrence.
Proof.
  unfold eventObject, parsed_timeZone.
  repeat split;
    rewrite set_attendees_other by discriminate;
    rewrite !set_if_truthy_other by discriminate;
    rewrite lookup_insert_ne by discriminate;
    destruct recurrence as [rule|]; cbn [option_map];
    rewrite ?lookup_insert_eq; try reflexivity;
    rewrite ?lookup_insert_ne by discriminate;
    rewrite ?lookup_insert_eq; try reflexivity.
Qed.

(** X19. The optional fields of the event are left out when they are
    omitted or empty: [description] and [location] are there exactly
    for a non-empty string, [attendees] exactly for a non-empty list,
    each address wrapped as an object with its [email]. The event has no
    field beyond these three, the colour id, and the summary, start,
    end and recurrence. *)
Theorem eventObject_optional_fields (a : CreateEventArgs) (recurrence : option string) :
  eventObject a recurrence !! "description"
    = option_map Js.JStr (spread_if_truthy (ce_description a)) /\
  eventObject a recurrence !! "location"
    = option_map Js.JStr (spread_if_truthy (ce_location a)) /\
  eventObject a recurrence !! "attendees"
    = match ce_attendees a with
      | Some (e :: es) =>
          Some (Js.JArr (map (fun x => Js.JObj [("email", Js.JStr x)]) (e :: es)))
      | _ => None
      end /\
  (forall k : string,
     ~ In k ["summary"; "start"; "end"; "recurrence"; "colorId";
             "description"; "location"; "attendees"] ->
     eventObject a recurrence !! k = None).
Proof.
  unfold eventObject. split; [|split; [|split]].
  - rewrite set_attendees_other by discriminate.
    rewrite set_if_truthy_other by discriminate.
    rewrite set_if_truthy_same.
    destruct (spread_if_truthy (ce_description a)); [reflexivity|].
    rewrite lookup_insert_ne by discriminate.
    destruct recurrence; now rewrite !lookup_insert_ne by discriminate.
  - rewrite set_attendees_other by discriminate.
    rewrite set_if_truthy_same.
    destruct (spread_if_truthy (ce_location a)); [reflexivity|].
    rewrite set_if_truthy_other by discriminate.
    rewrite lookup_insert_ne by discriminate.
    destruct recurrence; now rewrite !lookup_insert_ne by discriminate.
  - unfold set_attendees.
    destruct (ce_attendees a) as [[|e es]|]; [| apply lookup_insert_eq |];
      rewrite !set_if_truthy_other by discriminate;
      rewrite lookup_insert_ne by discriminate;
      destruct recurrence; now rewrite !lookup_insert_ne by discriminate.
  - intros k Hk. simpl in Hk.
    rewrite set_attendees_other by (intros <-; tauto).
    rewrite !set_if_truthy_other by (intros <-; tauto).
    rewrite lookup_insert_ne by (intros <-; tauto).
    destruct recurrence; now rewrite !lookup_insert_ne by (intros <-; tauto).
Qed.

Lemma eventObject_optional_fields_witness :
  eventObject fullEventArgs None !! "description" = Some (Js.JStr "Bring an apron") /\
  eventObject fullEventArgs None !! "location" = None /\
  eventObject fullEventArgs None !! "htmlLink" = None.
Proof.
  pose proof (eventObject_optional_fields fullEventArgs None)
    as (Hd & Hl & _ & Hother).
  split; [exact Hd|]. split; [exact Hl|].
  apply Hother. simpl. intuition discriminate.
Defined.

(** X20. The parameters of the two Gmail listings. [list_emails] always
    sends [userId] ("me" by default), [maxResults] (10 by default) and
    [includeSpamTrash] (false by default); it sends [q] only for a
    non-empty query and [labelIds] only for a non-empty list.
    [search_emails] sends [userId], [maxResults] and its query as [q],
    even when the query is empty, and nothing else. *)
Theorem gmail_list_parameters :
  (forall a : ListEmailsArgs,
     listEmailsParams a !! "userId" = Some (Js.JStr (default "me" (lm_userId a))) /\
     listEmailsParams a !! "maxResults"
       = Some (Js.JNum (default 10%Z (lm_maxResults a))) /\
     listEmailsParams a !! "includeSpamTrash"
       = Some (Js.JBool (default false (lm_includeSpamTrash a))) /\
     listEmailsParams a !! "q" = option_map Js.JStr (spread_if_truthy (lm_q a)) /\
     listEmailsParams a !! "labelIds"
       = match lm_labelIds a with
         | Some (l :: ls) => Some (Js.JArr (map Js.JStr (l :: ls)))
         | _ => None
         end) /\
  (forall a : SearchEmailsArgs,
     searchEmailsParams a !! "userId" = Some (Js.JStr (default "me" (sr_userId a))) /\
     searchEmailsParams a !! "q" = Some (Js.JStr (sr_query a)) /\
     searchEmailsParams a !! "maxResults"
       = Some (Js.JNum (default 10%Z (sr_maxResults a))) /\
     (forall k : string,
        ~ In k ["userId"; "q"; "maxResults"] -> searchEmailsParams a !! k = None)).
Proof.
  split.
  - intros a. unfold listEmailsParams.
    repeat split.
    + destruct (lm_labelIds a) as [[|l ls]|];
        rewrite ?lookup_insert_ne by discriminate;
        rewrite set_if_truthy_other by discriminate;
        rewrite !lookup_insert_ne by discriminate; apply lookup_insert_eq.
    + destruct (lm_labelIds a) as [[|l ls]|];
        rewrite ?lookup_insert_ne by discriminate;
        rewrite set_if_truthy_other by discriminate;
        rewrite !lookup_insert_ne by discriminate; apply lookup_insert_eq.
    + destruct (lm_labelIds a) as [[|l ls]|];
        rewrite ?lookup_insert_ne by discriminate;
        rewrite set_if_truthy_other by discriminate; apply lookup_insert_eq.
    + destruct (lm_labelIds a) as [[|l ls]|];
        rewrite ?lookup_insert_ne by discriminate;
        rewrite set_if_truthy_same;
        (destruct (spread_if_truthy (lm_q a)); [reflexivity|]);
        now rewrite !lookup_insert_ne by discriminate.
    + destruct (lm_labelIds a) as [[|l ls]|]; [| apply lookup_insert_eq |];
        rewrite set_if_truthy_other by discriminate;
        now rewrite !lookup_insert_ne by discriminate.
  - intros a. unfold searchEmailsParams. split; [|split; [|split]].
    + rewrite !lookup_insert_ne by discriminate. apply lookup_insert_eq.
    + rewrite lookup_insert_ne by discriminate. apply lookup_insert_eq.
    + apply lookup_insert_eq.
    + intros k Hk. simpl in Hk.
      now rewrite !lookup_insert_ne by (intros <-; tauto).
Qed.

(** ** Authentication *)

Section AuthenticationFacts.

Variable env : AuthEnv.
Variables CREDENTIALS_PATH TOKEN_PATH : string.

Lemma nullish_or_spec (a b : option Js.Json) (key : Js.Json) :
  key <> Js.JNull ->
  nullish_or a b = Some key <->
  a = Some key \/ ((a = None \/ a = Some Js.JNull) /\ b = Some key).
Proof.
  intros Hkey. unfold nullish_or.
  destruct a as [[| x | x | x | x | x]|]; split;
    try (intros H; injection H as <-; left; reflexivity);
    try (intros [H | [[H | H] Hb]]; congruence);
    try (intros H; right; split; [auto | exact H]).
Qed.

Lemma opt_prop_some (key : option Js.Json) (prop : string) (v : Js.Json) :
  opt_prop key prop = Some v <->
  exists j, key = Some j /\ j <> Js.JNull /\ Js.field prop j = Some v.
Proof.
  unfold opt_prop. split.
  - destruct key as [j|]; [|discriminate].
    destruct j; try discriminate; intros H; eexists; (split; [reflexivity|]);
      (split; [discriminate | exact H]).
  - intros (j & -> & Hj & H). destruct j; [contradiction | exact H ..].
Qed.

Lemma saveCredentials_cases (client : OAuthClient) (fs : gmap string string) :
  (exists e, saveCredentials env CREDENTIALS_PATH TOKEN_PATH client fs = (inl e, fs)) \/
  (exists raw keys id secret,
     fs !! CREDENTIALS_PATH = Some raw /\
     json_parse env raw = inr keys /\
     keys <> Js.JNull /\
     opt_prop (nullish_or (Js.field "installed" keys) (Js.field "web" keys))
       "client_id" = Some id /\
     opt_prop (nullish_or (Js.field "installed" keys) (Js.field "web" keys))
       "client_secret" = Some secret /\
     json_truthy (Some id) = true /\ json_truthy (Some secret) = true /\
     write_refused env fs TOKEN_PATH
       (json_stringify env (tokenPayload id secret client)) = None /\
     saveCredentials env CREDENTIALS_PATH TOKEN_PATH client fs
       = (inr tt,
          <[TOKEN_PATH := json_stringify env (tokenPayload id secret client)]> fs)).
Proof.
  unfold saveCredentials, readFile, writeFile.
  destruct (fs !! CREDENTIALS_PATH) as [raw|] eqn:Hraw; [|left; eauto].
  destruct (json_parse env raw) as [e|keys] eqn:Hparse; [left; eauto|].
  unfold get_prop.
  destruct keys as [| b | n | str | l | fields];
    try (left; eexists; reflexivity);
    cbn [Js.field] in *;
    try (cbn [nullish_or opt_prop]; left; eexists; reflexivity).
  set (key := nullish_or (Js.assoc "installed" fields) (Js.assoc "web" fields)).
  destruct (opt_prop key "client_id") as [id|] eqn:Hid; [|left; eauto].
  destruct (opt_prop key "client_secret") as [secret|] eqn:Hsec; [|left; eauto].
  destruct (json_truthy (Some id)) eqn:Tid; [|left; eauto].
  destruct (json_truthy (Some secret)) eqn:Tsec; [|left; eauto].
  cbn [andb].
  destruct (write_refused env fs TOKEN_PATH
              (json_stringify env (tokenPayload id secret client)))
    as [e|] eqn:Hwrite; [left; eauto|].
  right. exists raw, (Js.JObj fields), id, secret. cbn [Js.field].
  fold key. repeat split; try assumption. discriminate.
Qed.

(** When the key file is in order, [saveCredentials] is the write of
    the payload to the token file. *)
Lemma saveCredentials_writes (client : OAuthClient) (fs : gmap string string)
    (raw : string) (keys key id secret : Js.Json) :
  fs !! CREDENTIALS_PATH = Some raw ->
  json_parse env raw = inr keys ->
  client_key keys key ->
  Js.field "client_id" key = Some id ->
  Js.field "client_secret" key = Some secret ->
  json_truthy (Some id) = true ->
  json_truthy (Some secret) = true ->
  saveCredentials env CREDENTIALS_PATH TOKEN_PATH client fs
    = writeFile env fs TOKEN_PATH (json_stringify env (tokenPayload id secret client)).
Proof.
  intros Hraw Hparse (Hkeys & Hkey & Hentry) Hid Hsec Tid Tsec.
  apply (nullish_or_spec _ _ key Hkey) in Hentry.
  unfold saveCredentials, readFile. rewrite Hraw, Hparse.
  assert (Hget : get_prop keys "installed" = inr (Js.field "installed" keys))
    by (destruct keys; [contradiction | reflexivity ..]).
  rewrite Hget, Hentry.
  assert (Hopt : forall prop, opt_prop (Some key) prop = Js.field prop key)
    by (intros prop; destruct key; [contradiction | reflexivity ..]).
  rewrite !Hopt, Hid, Hsec, Tid, Tsec. reflexivity.
Qed.

(** X21. [saveCredentials] either throws without touching any file, or
    writes the token file and nothing else. It succeeds exactly when
    the key file is there and parses, its [installed] entry (or, when
    that is missing or null, its [web] entry) has a truthy [client_id]
    and a truthy [client_secret], and the write of the token file is
    not refused; the token file then holds the payload made of these
    two and of the client's refresh token, and every other file, the
    key file among them, is as it was. On such a key file a refused
    write is the error [saveCredentials] throws. *)
Theorem saveCredentials_effect (client : OAuthClient) (fs : gmap string string) :
  CREDENTIALS_PATH <> TOKEN_PATH ->
  (forall e fs',
     saveCredentials env CREDENTIALS_PATH TOKEN_PATH client fs = (inl e, fs') ->
     fs' = fs) /\
  (forall fs',
     saveCredentials env CREDENTIALS_PATH TOKEN_PATH client fs = (inr tt, fs') <->
     exists raw keys key id secret,
       fs !! CREDENTIALS_PATH = Some raw /\
       json_parse env raw = inr keys /\
       client_key keys key /\
       Js.field "client_id" key = Some id /\
       Js.field "client_secret" key = Some secret /\
       json_truthy (Some id) = true /\ json_truthy (Some secret) = true /\
       write_refused env fs TOKEN_PATH
         (json_stringify env (tokenPayload id secret client)) = None /\
       fs' = <[TOKEN_PATH := json_stringify env (tokenPayload id secret client)]> fs) /\
  (forall fs',
     saveCredentials env CREDENTIALS_PATH TOKEN_PATH client fs = (inr tt, fs') ->
     fs' !! CREDENTIALS_PATH = fs !! CREDENTIALS_PATH /\
     (forall path, path <> TOKEN_PATH -> fs' !! path = fs !! path)) /\
  (forall raw keys key id secret e,
     fs !! CREDENTIALS_PATH = Some raw ->
     json_parse env raw = inr keys ->
     client_key keys key ->
     Js.field "client_id" key = Some id ->
     Js.field "client_secret" key = Some secret ->
     json_truthy (Some id) = true -> json_truthy (Some secret) = true ->
     write_refused env fs TOKEN_PATH
       (json_stringify env (tokenPayload id secret client)) = Some e ->
     saveCredentials env CREDENTIALS_PATH TOKEN_PATH client fs = (inl e, fs)).
Proof.
  intros Hne.
  assert (Written : forall fs',
    saveCredentials env CREDENTIALS_PATH TOKEN_PATH client fs = (inr tt, fs') ->
    exists raw keys key id secret,
      fs !! CREDENTIALS_PATH = Some raw /\
      json_parse env raw = inr keys /\
      client_key keys key /\
      Js.field "client_id" key = Some id /\
      Js.field "client_secret" key = Some secret /\
      json_truthy (Some id) = true /\ json_truthy (Some secret) = true /\
      write_refused env fs TOKEN_PATH
        (json_stringify env (tokenPayload id secret client)) = None /\
      fs' = <[TOKEN_PATH := json_stringify env (tokenPayload id secret client)]> fs).
  { intros fs' Hrun.
    destruct (saveCredentials_cases client fs)
      as [[e0 Hthrow]
         | (raw & keys & id & secret & Hraw & Hparse & Hkeys & Hid & Hsec
            & Ti & Ts & Hwrite & Hok)];
      [rewrite Hthrow in Hrun; discriminate|].
    rewrite Hok in Hrun. injection Hrun as <-.
    apply opt_prop_some in Hid as (key & Hentry & Hkey & Hid).
    apply opt_prop_some in Hsec as (key' & Hentry' & _ & Hsec).
    rewrite Hentry in Hentry'. injection Hentry' as <-.
    exists raw, keys, key, id, secret.
    split; [exact Hraw|]. split; [exact Hparse|].
    split; [|tauto].
    split; [exact Hkeys|]. split; [exact Hkey|].
    now apply (nullish_or_spec _ _ key Hkey). }
  split; [|split; [|split]].
  - intros e fs' Hrun.
    destruct (saveCredentials_cases client fs)
      as [[e0 Hthrow] | (raw & keys & id & secret & _ & _ & _ & _ & _ & _ & _ & _ & Hok)].
    + rewrite Hthrow in Hrun. now injection Hrun as _ <-.
    + rewrite Hok in Hrun. discriminate.
  - intros fs'. split; [apply Written|].
    intros (raw & keys & key & id & secret & Hraw & Hparse & Hkey & Hid & Hsec
            & Ti & Ts & Hwrite & ->).
    rewrite (saveCredentials_writes client fs raw keys key id secret)
      by assumption.
    unfold writeFile. now rewrite Hwrite.
  - intros fs' Hrun.
    destruct (Written fs' Hrun)
      as (raw & keys & key & id & secret & _ & _ & _ & _ & _ & _ & _ & _ & ->).
    split; [now rewrite lookup_insert_ne by congruence|].
    intros path Hp. now rewrite lookup_insert_ne by congruence.
  - intros raw keys key id secret e Hraw Hparse Hkey Hid Hsec Ti Ts Hwrite.
    rewrite (saveCredentials_writes client fs raw keys key id secret)
      by assumption.
    unfold writeFile. now rewrite Hwrite.
Qed.


(** X22. A readable token file wins: when the token file parses and
    yields a client, [getAuth] returns that client without running the
    consent flow and without writing anything. *)
Theorem getAuth_prefers_saved_token (fs : gmap string string) (content : string)
    (credentials : Js.Json) (client : OAuthClient) :
  fs !! TOKEN_PATH = Some content ->
  json_parse env content = inr credentials ->
  auth_fromJSON env credentials = inr client ->
  getAuth_files env CREDENTIALS_PATH TOKEN_PATH fs = (inr client, fs).
Proof.
  intros Hfile Hparse Hfrom.
  unfold getAuth_files, getAuth_body, loadSavedCredentialsIfExist, readFile.
  now rewrite Hfile, Hparse, Hfrom.
Qed.

Lemma getAuth_body_failure (fs fs' : gmap string string) (e : Js.Thrown) :
  getAuth_body env CREDENTIALS_PATH TOKEN_PATH fs = (inl e, fs') -> fs' = fs.
Proof.
  unfold getAuth_body.
  destruct (loadSavedCredentialsIfExist env TOKEN_PATH fs); [discriminate|].
  destruct (auth_interactive env fs) as [e0|client]; [now intros [= _ <-]|].
  destruct (Js.truthy (client_refresh_token client)); [|discriminate].
  destruct (saveCredentials_cases client fs)
    as [[e0 Hrun] | (raw & keys & id & secret & _ & _ & _ & _ & _ & _ & _ & _ & Hrun)];
    rewrite Hrun; [now intros [= _ <-] | discriminate].
Qed.

(** X23. Whatever goes wrong, [getAuth] throws a plain [Error] whose
    message is "Authentication failed: " followed by the cause, and it
    has written no file. Such an error carries no HTTP response, so
    [list_calendars] never reports a failed authentication as a text:
    its [catch] throws a [TypeError] instead, and no request is sent. *)
Theorem getAuth_failure (fs fs' : gmap string string) (t : Js.Thrown) :
  getAuth_files env CREDENTIALS_PATH TOKEN_PATH fs = (inl t, fs') ->
  (exists cause,
     t = Js.ThrownError
           (Js.mkError ("Authentication failed: " +:+ thrown_to_string cause))) /\
  fs' = fs /\
  (forall answers fmt,
     list_calendars (remoteOn env CREDENTIALS_PATH TOKEN_PATH fs answers) fmt
     = (inl (Js.TypeError_read "undefined" "data"), [])).
Proof.
  intros Hrun. unfold getAuth_files in Hrun.
  destruct (getAuth_body env CREDENTIALS_PATH TOKEN_PATH fs) as [[e|client] fs0]
    eqn:Hbody; [|discriminate].
  injection Hrun as <- <-.
  split; [eauto|]. split; [exact (getAuth_body_failure _ _ _ Hbody)|].
  intros answers fmt.
  unfold list_calendars, remoteOn, authenticate, glift, gtry, gbind,
    log_calendar_error, getAuth_files.
  cbn [getAuth]. rewrite Hbody. reflexivity.
Qed.

(** X24. The first consent is remembered only with a refresh token.
    When no saved token can be used and the consent flow yields a
    client: without a refresh token nothing is written, so the next run
    asks for consent again; with one, as soon as [saveCredentials] goes
    through, the token file holds a payload with that refresh token,
    and if that payload parses back and yields a client, the next
    [getAuth] returns it from the file alone. *)
Theorem getAuth_remembers_consent (fs : gmap string string) (client : OAuthClient) :
  loadSavedCredentialsIfExist env TOKEN_PATH fs = None ->
  auth_interactive env fs = inr client ->
  (Js.truthy (client_refresh_token client) = false ->
   getAuth_files env CREDENTIALS_PATH TOKEN_PATH fs = (inr client, fs)) /\
  (forall fs',
     Js.truthy (client_refresh_token client) = true ->
     saveCredentials env CREDENTIALS_PATH TOKEN_PATH client fs = (inr tt, fs') ->
     getAuth_files env CREDENTIALS_PATH TOKEN_PATH fs = (inr client, fs') /\
     exists payload,
       fs' !! TOKEN_PATH = Some (json_stringify env payload) /\
       Js.field "refresh_token" payload
         = option_map Js.JStr (client_refresh_token client) /\
       (forall next,
          json_parse env (json_stringify env payload) = inr payload ->
          auth_fromJSON env payload = inr next ->
          getAuth_files env CREDENTIALS_PATH TOKEN_PATH fs' = (inr next, fs'))).
Proof.
  intros Hnone Hflow. split.
  - intros Hno. unfold getAuth_files, getAuth_body.
    now rewrite Hnone, Hflow, Hno.
  - intros fs' Hyes Hsave. split.
    + unfold getAuth_files, getAuth_body.
      now rewrite Hnone, Hflow, Hyes, Hsave.
    + destruct (saveCredentials_cases client fs)
        as [[e0 Hrun] | (raw & keys & id & secret & _ & _ & _ & _ & _ & _ & _ & _ & Hrun)];
        rewrite Hrun in Hsave; [discriminate|].
      injection Hsave as <-.
      exists (tokenPayload id secret client).
      split; [apply lookup_insert_eq|]. split.
      * unfold tokenPayload. cbn [Js.field app Js.assoc String.eqb Ascii.eqb].
        destruct (client_refresh_token client); reflexivity.
      * intros next Hparse Hfrom.
        unfold getAuth_files, getAuth_body, loadSavedCredentialsIfExist, readFile.
        now rewrite lookup_insert_eq, Hparse, Hfrom.
Qed.

End AuthenticationFacts.

Lemma saveCredentials_effect_witness :
  (exists fs',
     saveCredentials sampleAuthEnv "/srv/ada/credentials.json" "/srv/ada/token.json"
       sampleClient freshFiles = (inr tt, fs') /\
     fs' !! "/srv/ada/token.json" = Some "<token>" /\
     fs' !! "/srv/ada/credentials.json" = Some "<keys>") /\
  saveCredentials webAuthEnv "/srv/ada/credentials.json" "/srv/ada/token.json"
    sampleClient freshFiles
    = (inr tt, <["/srv/ada/token.json" := "<token>"]> freshFiles) /\
  saveCredentials readOnlyAuthEnv "/srv/ada/credentials.json" "/srv/ada/token.json"
    sampleClient freshFiles
    = (inl writeDenied, freshFiles).
Proof.
  assert (Hne : "/srv/ada/credentials.json" <> "/srv/ada/token.json") by discriminate.
  split; [|split].
  - pose (fs' := snd (saveCredentials sampleAuthEnv "/srv/ada/credentials.json"
                        "/srv/ada/token.json" sampleClient freshFiles)).
    assert (Hrun : saveCredentials sampleAuthEnv "/srv/ada/credentials.json"
                     "/srv/ada/token.json" sampleClient freshFiles = (inr tt, fs'))
      by reflexivity.
    destruct (saveCredentials_effect sampleAuthEnv "/srv/ada/credentials.json"
                "/srv/ada/token.json" sampleClient freshFiles Hne)
      as (_ & Hiff & Hrest & _).
    destruct (proj1 (Hiff fs') Hrun)
      as (raw & keys & key & id & secret & Hraw & _ & _ & _ & _ & _ & _ & _ & Hfs).
    exists fs'. split; [exact Hrun|]. split.
    + rewrite Hfs. apply lookup_insert_eq.
    + rewrite (proj1 (Hrest fs' Hrun)). reflexivity.
  - apply (proj1 (proj2 (saveCredentials_effect webAuthEnv
                           "/srv/ada/credentials.json" "/srv/ada/token.json"
                           sampleClient freshFiles Hne))).
    exists "<keys>", webKeys,
      (Js.JObj [("client_id", Js.JStr "5678.apps.googleusercontent.com");
                ("client_secret", Js.JStr "w3bs3cr3t")]),
      (Js.JStr "5678.apps.googleusercontent.com"), (Js.JStr "w3bs3cr3t").
    split; [reflexivity|]. split; [reflexivity|].
    split; [split; [discriminate | split; [discriminate|]];
            right; split; [left|]; reflexivity|].
    repeat split.
  - apply (proj2 (proj2 (proj2 (saveCredentials_effect readOnlyAuthEnv
                                  "/srv/ada/credentials.json" "/srv/ada/token.json"
                                  sampleClient freshFiles Hne)))
             "<keys>" sampleKeys
             (Js.JObj [("client_id", Js.JStr "1234.apps.googleusercontent.com");
                       ("client_secret", Js.JStr "s3cr3t")])
             (Js.JStr "1234.apps.googleusercontent.com") (Js.JStr "s3cr3t")
             writeDenied);
      try reflexivity.
    split; [discriminate | split; [discriminate | left; reflexivity]].
Defined.

Lemma getAuth_prefers_saved_token_witness :
  getAuth_files sampleAuthEnv "/srv/ada/credentials.json" "/srv/ada/token.json"
    (<["/srv/ada/token.json" := "<token>"]> freshFiles)
  = (inr {| client_handle := 8; client_refresh_token := Some "1//refresh" |},
     <["/srv/ada/token.json" := "<token>"]> freshFiles).
Proof.
  exact (getAuth_prefers_saved_token sampleAuthEnv "/srv/ada/credentials.json"
           "/srv/ada/token.json"
           (<["/srv/ada/token.json" := "<token>"]> freshFiles)
           "<token>" samplePayload
           {| client_handle := 8; client_refresh_token := Some "1//refresh" |}
           eq_refl eq_refl eq_refl).
Defined.

Lemma getAuth_failure_witness :
  exists t,
    fst (getAuth_files sampleAuthEnv "/srv/ada/credentials.json" "/srv/ada/token.json" ∅)
      = inl t /\
    thrown_to_string t
      = "Error: Authentication failed: Error: ENOENT: no such file or directory, open '/srv/ada/credentials.json'".
Proof.
  pose (run := getAuth_files sampleAuthEnv "/srv/ada/credentials.json"
                 "/srv/ada/token.json" ∅).
  assert (Hrun : run = (inl (Js.ThrownError
                               (Js.mkError ("Authentication failed: "
                                  +:+ thrown_to_string
                                        (ENOENT "/srv/ada/credentials.json")))), ∅))
    by reflexivity.
  destruct (getAuth_failure sampleAuthEnv "/srv/ada/credentials.json"
              "/srv/ada/token.json" ∅ ∅ _ Hrun) as (_ & _ & _).
  eexists. split; [exact (f_equal fst Hrun) | reflexivity].
Defined.

Lemma getAuth_remembers_consent_witness :
  exists fs',
    getAuth_files sampleAuthEnv "/srv/ada/credentials.json" "/srv/ada/token.json"
      freshFiles = (inr sampleClient, fs') /\
    fst (getAuth_files sampleAuthEnv "/srv/ada/credentials.json" "/srv/ada/token.json"
           fs')
      = inr {| client_handle := 8; client_refresh_token := Some "1//refresh" |}.
Proof.
  pose (fs' := snd (saveCredentials sampleAuthEnv "/srv/ada/credentials.json"
                      "/srv/ada/token.json" sampleClient freshFiles)).
  destruct (proj2 (getAuth_remembers_consent sampleAuthEnv
                     "/srv/ada/credentials.json" "/srv/ada/token.json"
                     freshFiles sampleClient eq_refl eq_refl)
              fs' eq_refl eq_refl) as (Hfirst & _).
  exists fs'. split; [exact Hfirst | reflexivity].
Defined.

Lemma gmail_list_parameters_witness :
  searchEmailsParams {| sr_userId := None; sr_query := EmptyString;
                        sr_maxResults := None |} !! "q"
    = Some (Js.JStr EmptyString) /\
  searchEmailsParams {| sr_userId := None; sr_query := EmptyString;
                        sr_maxResults := None |} !! "labelIds" = None.
Proof.
  destruct (proj2 gmail_list_parameters
              {| sr_userId := None; sr_query := EmptyString; sr_maxResults := None |})
    as (_ & Hq & _ & Hother).
  split; [exact Hq|]. apply Hother. simpl. intuition discriminate.
Defined.

(** ** The chat loop *)

(** X25. Every tool declared to the model is registered by exactly the
    server its calls are routed to: the five ordering tools go to the
    ordering server, the eight Calendar/Gmail tools to the Google
    server, and so does any name that is not an ordering tool. *)
Theorem route_matches_registration :
  (forall tool : string, route tool = OrderingServer <-> In tool orderingRegistered) /\
  (forall tool : string, In tool googleRegistered -> route tool = GoogleServer) /\
  (forall tool : string,
     In tool declaredTools <-> In tool googleRegistered \/ In tool orderingRegistered).
Proof.
  split; [|split].
  - intros tool. unfold route, isOrderingTool.
    destruct (existsb (String.eqb tool) orderingTools) eqn:E.
    + apply existsb_exists in E as (x & Hin & Hx).
      apply String.eqb_eq in Hx. subst x. tauto.
    + split; [discriminate|]. intros Hin.
      assert (existsb (String.eqb tool) orderingTools = true) as E'.
      { apply existsb_exists. exists tool. split; [exact Hin | apply String.eqb_refl]. }
      congruence.
  - intros tool Hin. simpl in Hin. intuition (subst; reflexivity).
  - intros tool. simpl. tauto.
Qed.

Section ChatFacts.

Variable cw : ChatWorld.

Lemma invocations_cons (c : ChatCall) (log : list ChatCall) :
  invocations (c :: log) = (invocations log ++ invocation_of c)%list.
Proof.
  unfold invocations. cbn [flat_map]. rewrite rev_app_distr.
  f_equal. destruct c; reflexivity.
Qed.

(** The tool loop leaves the conversation alone, whatever its outcome,
    and only adds tool invocations to the log. *)
Lemma runToolCalls_frame (calls : list ToolCall) (st : ChatState) :
  history (snd (runToolCalls cw calls st)) = history st /\
  List.filter is_completion (chat_log (snd (runToolCalls cw calls st)))
  = List.filter is_completion (chat_log st).
Proof.
  revert st; induction calls as [|[id tool arguments|id] rest IH]; intros st;
    cbn [runToolCalls].
  - split; reflexivity.
  - destruct (argumentsOf cw arguments) as [e|args]; [split; reflexivity|].
    unfold invoke.
    destruct (callTool cw (chat_tick st) (route tool) tool args) as [e|result];
      [split; reflexivity|].
    match goal with
    | |- context [runToolCalls cw rest ?st1] =>
        destruct (IH st1) as [Hh Hl];
        destruct (runToolCalls cw rest st1) as [[e|more] st2]
    end; cbn [snd history chat_log] in *; split; assumption.
  - apply IH.
Qed.

(** X26. When the tool loop goes through, there is one tool message
    per function call, in the order of the calls and with their ids;
    the tools were invoked one after the other in that same order, each
    on the server its name is routed to; calls of another type are
    skipped. *)
Theorem runToolCalls_in_order (calls : list ToolCall) (st st' : ChatState)
    (results : list Message) :
  runToolCalls cw calls st = (inr results, st') ->
  map tool_call_id_of results
    = map (fun c => Some (fst (fst c))) (functionCalls calls) /\
  invocations (chat_log st')
    = (invocations (chat_log st)
       ++ map (fun c => (route (snd (fst c)), snd (fst c))) (functionCalls calls))%list /\
  chat_tick st' = chat_tick st + length (functionCalls calls) /\
  history st' = history st.
Proof.
  revert st st' results;
    induction calls as [|[id tool arguments|id] rest IH]; intros st st' results;
    cbn [runToolCalls functionCalls flat_map].
  - intros H. injection H as <- <-. rewrite app_nil_r. repeat split. simpl. lia.
  - destruct (argumentsOf cw arguments) as [e|args]; [discriminate|].
    unfold invoke.
    destruct (callTool cw (chat_tick st) (route tool) tool args) as [e|result];
      [discriminate|].
    match goal with
    | |- context [runToolCalls cw rest ?st1] =>
        destruct (runToolCalls cw rest st1) as [[e|more] st2] eqn:Hrest;
        [discriminate|]
    end.
    intros H. injection H as <- <-.
    destruct (IH _ _ _ Hrest) as (Hids & Hinv & Htick & Hhist).
    cbn [chat_log chat_tick history] in *.
    fold (functionCalls rest).
    split; [cbn [map app tool_call_id_of fst]; now rewrite Hids|].
    split; [|split; [|exact Hhist]].
    + rewrite Hinv, invocations_cons. cbn [invocation_of map app fst snd].
      now rewrite <- app_assoc.
    + rewrite Htick. cbn [app length]. lia.
  - apply IH.
Qed.

(** X27. A turn in which the model asks for tools and nothing fails:
    the conversation grows by the user's line, the model's message, the
    tool results and the final answer ("(no content)" when the model
    gives none), in that order; the second request to the model carries
    the whole conversation up to the tool results, without tools. *)
Theorem chatTurn_with_tools (user : string) (st st1 st2 : ChatState)
    (msg : ModelMessage) (tc : ToolCall) (tcs : list ToolCall)
    (results : list Message) (final : option ModelMessage) :
  askModel cw true (push [UserMsg user] st) = (inr (Some msg), st1) ->
  msg_tool_calls msg = Some (tc :: tcs) ->
  runToolCalls cw (tc :: tcs) st1 = (inr results, st2) ->
  complete cw (chat_tick st2)
    (history st ++ [UserMsg user] ++ ModelMsg msg :: results)%list false
    = inr final ->
  exists st',
    chatTurn cw user st = (inr tt, st') /\
    history st'
      = (history st ++ [UserMsg user] ++ ModelMsg msg :: results
         ++ [AssistantMsg
               (Js.or_default
                  (match final with Some m => msg_content m | None => None end)
                  "(no content)")])%list /\
    chat_log st'
      = Completion (history st ++ [UserMsg user] ++ ModelMsg msg :: results)%list false
          :: chat_log st2.
Proof.
  intros Hask Hcalls Hrun Hfinal.
  assert (Hh1 : history st1 = (history st ++ [UserMsg user])%list).
  { unfold askModel in Hask. injection Hask as _ <-. reflexivity. }
  destruct (runToolCalls_frame (tc :: tcs) st1) as [Hh2 _].
  rewrite Hrun in Hh2. cbn [snd] in Hh2.
  unfold chatTurn. rewrite Hask, Hcalls, Hrun.
  unfold askModel, push. cbn [history chat_tick chat_log].
  rewrite Hh2, Hh1, <- app_assoc. cbn [app] in *. rewrite Hfinal.
  eexists. split; [reflexivity|]. cbn [history chat_log].
  split; [|reflexivity].
  rewrite <- !app_assoc. reflexivity.
Qed.

(** X28. A failure in the tool loop (arguments that are not JSON, or a
    tool call that is rejected) ends the turn and the whole loop with
    that error: the model's message and the results already obtained
    are not recorded, the conversation only keeps the user's line, no
    second request goes to the model and the remaining lines are not
    read. *)
Theorem chatLoop_tool_failure (user : string) (rest : list string)
    (st st1 st2 : ChatState) (msg : ModelMessage) (tc : ToolCall)
    (tcs : list ToolCall) (e : Js.Thrown) :
  stops user = false ->
  askModel cw true (push [UserMsg user] st) = (inr (Some msg), st1) ->
  msg_tool_calls msg = Some (tc :: tcs) ->
  runToolCalls cw (tc :: tcs) st1 = (inl e, st2) ->
  chatLoop cw (user :: rest) st = (inl e, st2) /\
  history st2 = (history st ++ [UserMsg user])%list /\
  List.filter is_completion (chat_log st2)
    = Completion (history st ++ [UserMsg user])%list true
        :: List.filter is_completion (chat_log st).
Proof.
  intros Hgo Hask Hcalls Hrun.
  destruct (runToolCalls_frame (tc :: tcs) st1) as [Hh Hl].
  rewrite Hrun in Hh, Hl. cbn [snd] in Hh, Hl.
  split.
  - cbn [chatLoop]. rewrite Hgo. unfold chatTurn.
    now rewrite Hask, Hcalls, Hrun.
  - unfold askModel in Hask. injection Hask as _ <-.
    cbn [history chat_log push List.filter is_completion] in *.
    split; assumption.
Qed.

Lemma chatTurn_extends (user : string) (st : ChatState) :
  exists added,
    history (snd (chatTurn cw user st)) = (history st ++ UserMsg user :: added)%list.
Proof.
  unfold chatTurn, askModel, push. cbn [history chat_tick chat_log].
  destruct (complete cw (chat_tick st) _ true) as [e|[msg|]];
    [exists []; reflexivity | | exists []; reflexivity].
  destruct (msg_tool_calls msg) as [[|tc tcs]|] eqn:Hcalls;
    try (eexists [_]; cbn [snd history]; now rewrite <- app_assoc).
  match goal with
  | |- context [runToolCalls cw (tc :: tcs) ?st1] =>
      destruct (runToolCalls_frame (tc :: tcs) st1) as [Hh _];
      destruct (runToolCalls cw (tc :: tcs) st1) as [[e|results] st2]
  end; cbn [snd history] in Hh.
  - exists []. cbn [snd]. exact Hh.
  - cbn [history chat_tick chat_log]. rewrite Hh.
    destruct (complete cw (chat_tick st2) _ false) as [e|final]; cbn [snd history].
    + eexists. now rewrite <- app_assoc.
    + eexists. now rewrite <- !app_assoc.
Qed.

(** X29. The conversation only ever grows: whatever the model and the
    tools answer, and whether the loop ends normally or with an error,
    the history at the end starts with the history at the beginning. In
    particular the system prompt stays the first message. *)
Theorem chatLoop_history_grows (inputs : list string) :
  (forall st : ChatState,
     exists suffix,
       history (snd (chatLoop cw inputs st)) = (history st ++ suffix)%list) /\
  (forall systemPrompt : string,
     hd_error (history (snd (chatLoop cw inputs (chatStart systemPrompt))))
     = Some (SystemMsg systemPrompt)).
Proof.
  assert (Grow : forall st : ChatState,
    exists suffix,
      history (snd (chatLoop cw inputs st)) = (history st ++ suffix)%list).
  { induction inputs as [|user rest IH]; intros st; cbn [chatLoop].
    - exists []. now rewrite app_nil_r.
    - destruct (stops user); [exists []; now rewrite app_nil_r|].
      destruct (chatTurn_extends user st) as [added Hadd].
      destruct (chatTurn cw user st) as [[e|[]] st1]; cbn [snd] in Hadd.
      + eexists. exact Hadd.
      + destruct (IH st1) as [suffix Hs]. rewrite Hs, Hadd.
        eexists. now rewrite <- app_assoc. }
  split; [exact Grow|].
  intros systemPrompt. destruct (Grow (chatStart systemPrompt)) as [suffix ->].
  reflexivity.
Qed.

(** X30. A blank line or the word "exit", in any (ASCII) case and with
    white space around it, ends the loop at once: nothing is sent to
    the model for it, and no later line is read. *)
Theorem chatLoop_stops_at_exit (before : list string) (line : string)
    (after : list string) (st : ChatState) :
  stops line = true ->
  chatLoop cw (before ++ line :: after) st = chatLoop cw before st.
Proof.
  intros Hstop. revert st; induction before as [|user rest IH]; intros st.
  - cbn [app chatLoop]. now rewrite Hstop.
  - cbn [app chatLoop]. destruct (stops user); [reflexivity|].
    destruct (chatTurn cw user st) as [[e|[]] st1]; [reflexivity | apply IH].
Qed.

End ChatFacts.

Lemma runToolCalls_in_order_witness :
  exists results st',
    runToolCalls sampleChatWorld orderCall (chatStart "You are Ada.")
      = (inr results, st') /\
    map tool_call_id_of results = [Some "call_1"; Some "call_3"] /\
    invocations (chat_log st')
      = [(OrderingServer, "order_food_item"); (GoogleServer, "list_calendars")].
Proof.
  pose (run := runToolCalls sampleChatWorld orderCall (chatStart "You are Ada.")).
  assert (Hrun : run = (inr [ToolMsg "call_1" "{}"; ToolMsg "call_3" "{}"], snd run))
    by reflexivity.
  destruct (runToolCalls_in_order sampleChatWorld orderCall
              (chatStart "You are Ada.") (snd run) _ Hrun) as (Hids & Hinv & _).
  eexists _, (snd run). split; [exact Hrun|]. split; [exact Hids | exact Hinv].
Defined.

Lemma chatTurn_with_tools_witness :
  exists st',
    chatTurn sampleChatWorld "One coffee, please" (chatStart "You are Ada.")
      = (inr tt, st') /\
    history st'
      = [SystemMsg "You are Ada."; UserMsg "One coffee, please";
         ModelMsg {| msg_content := None; msg_tool_calls := Some orderCall |};
         ToolMsg "call_1" "{}"; ToolMsg "call_3" "{}"; AssistantMsg "Done."].
Proof.
  pose (st1 := snd (askModel sampleChatWorld true
                      (push [UserMsg "One coffee, please"] (chatStart "You are Ada.")))).
  pose (st2 := snd (runToolCalls sampleChatWorld orderCall st1)).
  destruct (chatTurn_with_tools sampleChatWorld "One coffee, please"
              (chatStart "You are Ada.") st1 st2
              {| msg_content := None; msg_tool_calls := Some orderCall |}
              (FunctionCall "call_1" "order_food_item" "{itemName}")
              [OtherCall "call_2"; FunctionCall "call_3" "list_calendars" EmptyString]
              [ToolMsg "call_1" "{}"; ToolMsg "call_3" "{}"]
              (Some {| msg_content := Some "Done."; msg_tool_calls := None |})
              eq_refl eq_refl eq_refl eq_refl) as (st' & Hrun & Hhist & _).
  exists st'. split; [exact Hrun | exact Hhist].
Defined.

Lemma chatLoop_tool_failure_witness :
  exists st2,
    chatLoop brokenArgumentsWorld ["One coffee, please"; "And a bagel"]
      (chatStart "You are Ada.") = (inl badArguments, st2) /\
    history st2 = [SystemMsg "You are Ada."; UserMsg "One coffee, please"].
Proof.
  pose (st1 := snd (askModel brokenArgumentsWorld true
                      (push [UserMsg "One coffee, please"] (chatStart "You are Ada.")))).
  pose (st2 := snd (runToolCalls brokenArgumentsWorld orderCall st1)).
  destruct (chatLoop_tool_failure brokenArgumentsWorld "One coffee, please"
              ["And a bagel"] (chatStart "You are Ada.") st1 st2
              {| msg_content := None; msg_tool_calls := Some orderCall |}
              (FunctionCall "call_1" "order_food_item" "{itemName}")
              [OtherCall "call_2"; FunctionCall "call_3" "list_calendars" EmptyString]
              badArguments eq_refl eq_refl eq_refl eq_refl) as (Hrun & Hhist & _).
  exists st2. split; [exact Hrun | exact Hhist].
Defined.

Lemma chatLoop_stops_at_exit_witness :
  stops "  EXIT " = true /\
  chatLoop plainChatWorld ["Hi"; "  EXIT "; "Still there?"] (chatStart "You are Ada.")
  = chatLoop plainChatWorld ["Hi"] (chatStart "You are Ada.").
Proof.
  split; [reflexivity|].
  exact (chatLoop_stops_at_exit plainChatWorld ["Hi"] "  EXIT " ["Still there?"]
           (chatStart "You are Ada.") eq_refl).
Defined.

Lemma clickFirstFound_clicks_once_witness :
  exists s' delta,
    clickFirstFound bagelWorld 1 updateSelectors initialState = (inr true, s') /\
    trace s' = (delta ++ [])%list /\
    length (List.filter is_click_ok delta) = 1.
Proof.
  destruct (clickFirstFound_clicks_once bagelWorld 1 updateSelectors initialState)
    as (clicked & s' & delta & Hrun & Htr & _ & Hcount & _).
  assert (Hc : clicked = true).
  { assert (H : fst (clickFirstFound bagelWorld 1 updateSelectors initialState)
                = inr true) by reflexivity.
    rewrite Hrun in H. now injection H. }
  subst clicked. exists s', delta. split; [exact Hrun|]. split; [exact Htr | exact Hcount].
Defined.

Lemma route_matches_registration_witness :
  In "checkout" orderingRegistered /\ route "checkout" = OrderingServer /\
  In "send_email" googleRegistered /\ route "send_email" = GoogleServer.
Proof.
  assert (Ho : In "checkout" orderingRegistered) by (simpl; tauto).
  assert (Hg : In "send_email" googleRegistered) by (simpl; tauto).
  split; [exact Ho|].
  split; [exact (proj2 (proj1 route_matches_registration "checkout") Ho)|].
  split; [exact Hg|].
  exact (proj1 (proj2 route_matches_registration) "send_email" Hg).
Defined.
